(** * Taal classification engine: a shallow embedding of
      [taal_finder/models.py], [taal_finder/taals/definitions.py],
      [taal_finder/beats.py] (tempo part) and [taal_finder/taal.py].

    Numbers are modelled as the code has them: Python [float] and NumPy
    [float64] are IEEE binary64 values, here Rocq's primitive [float];
    Python [int] is [Z]; NumPy arrays of floats are [list float].
    Operations that may raise (indexing, allocation with a negative
    size, dictionary lookup) live in a small exception monad. *)

From Stdlib Require Import String ZArith List Bool Lia Floats Sorted Permutation.
Import ListNotations.

Set Warnings "-inexact-float".

Local Open Scope Z_scope.

(** ** Exceptions *)

Inductive exn : Type :=
| IndexError
| ValueError
| KeyError
| ZeroDivisionError.

Inductive result (A : Type) : Type :=
| Ok (a : A)
| Raise (e : exn).

Arguments Ok {A} a.
Arguments Raise {A} e.

Definition bind {A B : Type} (m : result A) (k : A -> result B) : result B :=
  match m with
  | Ok a => k a
  | Raise e => Raise e
  end.

Notation "x <- m ;; k" := (bind m (fun x => k))
  (at level 61, m at next level, right associativity).

(** A Python [for] loop whose body may raise: the loop variable runs over
    [xs] and the body updates the loop state. *)
Fixpoint for_each {A S : Type} (xs : list A) (s : S)
         (body : A -> S -> result S) : result S :=
  match xs with
  | [] => Ok s
  | x :: xs' => s' <- body x s ;; for_each xs' s' body
  end.

(** ** Python and NumPy primitives *)

Module Py.

(** [len(xs)] as a Python int. *)
Definition len {A : Type} (xs : list A) : Z := Z.of_nat (length xs).

(** Index normalisation shared by [a[i]] and [a[i] = v]: a negative
    index counts from the end, anything outside [-len, len) raises. *)
Definition norm_index {A : Type} (xs : list A) (i : Z) : result nat :=
  if (0 <=? i) && (i <? len xs) then Ok (Z.to_nat i)
  else if (- len xs <=? i) && (i <? 0) then Ok (Z.to_nat (len xs + i))
  else Raise IndexError.

Fixpoint set_nth {A : Type} (n : nat) (v : A) (xs : list A) : list A :=
  match xs, n with
  | [], _ => []
  | _ :: xs', O => v :: xs'
  | x :: xs', S n' => x :: set_nth n' v xs'
  end.

(** [xs[i] = v] *)
Definition setitem {A : Type} (xs : list A) (i : Z) (v : A) : result (list A) :=
  n <- norm_index xs i ;; Ok (set_nth n v xs).

(** [xs[i]] *)
Definition getitem {A : Type} (d : A) (xs : list A) (i : Z) : result A :=
  n <- norm_index xs i ;; Ok (nth n xs d).

(** [np.ones(n)], [np.zeros(n)]: a negative size raises [ValueError]. *)
Definition np_full (v : float) (n : Z) : result (list float) :=
  if n <? 0 then Raise ValueError else Ok (repeat v (Z.to_nat n)).

Definition np_ones : Z -> result (list float) := np_full 1%float.
Definition np_zeros : Z -> result (list float) := np_full 0%float.

(** The builtins [min(a, b)] and [max(a, b)] on floats: the first
    argument is kept unless the second compares strictly better. *)
Definition min (a b : float) : float := if (b <? a)%float then b else a.
Definition max (a b : float) : float := if (a <? b)%float then b else a.

(** Conversion of a Python int to a float (correctly rounded). *)
Definition float_of_int (z : Z) : float :=
  SF2Prim (binary_normalize prec emax z 0 false).

(** Rounding of the rational [num/den] ([den > 0]) to the nearest
    integer, ties to even. *)
Definition round_half_even (num den : Z) : Z :=
  let q := num / den in
  let r := num mod den in
  match 2 * r ?= den with
  | Lt => q
  | Gt => q + 1
  | Eq => if Z.even q then q else q + 1
  end.

(** [round(x, ndigits)] for a float [x] and [ndigits >= 0]: CPython
    prints the exact binary value correctly rounded (ties to even) to
    [ndigits] decimals and reads the decimal string back as the
    nearest double.  Zeros, infinities and NaN round to themselves. *)
Definition round (x : float) (ndigits : Z) : float :=
  match Prim2SF x with
  | S754_finite s m e =>
      let scale := 10 ^ ndigits in
      let y := if 0 <=? e
               then Zpos m * 2 ^ e * scale
               else round_half_even (Zpos m * scale) (2 ^ (- e)) in
      match y with
      | Zpos p =>
          SF2Prim (SFdiv prec emax (S754_finite s p 0)
                         (S754_finite false (Z.to_pos scale) 0))
      | _ => if s then (-0)%float else 0%float
      end
  | _ => x
  end.

End Py.

(** ** Data model ([models.py]) *)

Inductive TaalName : Type :=
| TEENTAAL | RUPAK | DADRA | JHAPTAAL | EKTAAL | DEEPCHANDI | KEHERWA.

Definition TaalName_eqb (a b : TaalName) : bool :=
  match a, b with
  | TEENTAAL, TEENTAAL | RUPAK, RUPAK | DADRA, DADRA | JHAPTAAL, JHAPTAAL
  | EKTAAL, EKTAAL | DEEPCHANDI, DEEPCHANDI | KEHERWA, KEHERWA => true
  | _, _ => false
  end.

(** [hindi_name] is a display label with no behavioural role and is left
    out of the record. *)
Record TaalDefinition : Type := {
  name : TaalName;
  matras : Z;
  vibhags : list Z;
  sam_position : Z;
  khali_positions : list Z;
  tali_positions : list Z;
  common_layas : list string
}.

(** The [vibhag_boundaries] property: cumulative starts of the vibhags. *)
Definition vibhag_boundaries (t : TaalDefinition) : list Z :=
  fold_left (fun boundaries v => boundaries ++ [last boundaries 0 + v])
            (removelast (vibhags t)) [0].

Record BeatInfo : Type := {
  time : float;
  beat_position : Z;
  is_sam : bool;
  is_khali : bool;
  strength : float
}.

Record TaalDetectionResult : Type := {
  taal : TaalName;
  confidence : float;
  tempo_bpm : float;
  matra_duration : float;
  cycle_duration : float;
  beats : list BeatInfo;
  alternative_taals : list (TaalName * float)
}.

(** ** The registry ([taals/definitions.py]) *)

Definition madhya_drut : list string := ["madhya"; "drut"]%string.
Definition all_layas : list string := ["vilambit"; "madhya"; "drut"]%string.

Definition dadra : TaalDefinition :=
  {| name := DADRA; matras := 6; vibhags := [3; 3]; sam_position := 0;
     khali_positions := [3]; tali_positions := [0];
     common_layas := madhya_drut |}.
Definition rupak : TaalDefinition :=
  {| name := RUPAK; matras := 7; vibhags := [3; 2; 2]; sam_position := 0;
     khali_positions := [0]; tali_positions := [3; 5];
     common_layas := madhya_drut |}.
Definition keherwa : TaalDefinition :=
  {| name := KEHERWA; matras := 8; vibhags := [4; 4]; sam_position := 0;
     khali_positions := [4]; tali_positions := [0];
     common_layas := madhya_drut |}.
Definition jhaptaal : TaalDefinition :=
  {| name := JHAPTAAL; matras := 10; vibhags := [2; 3; 2; 3]; sam_position := 0;
     khali_positions := [5]; tali_positions := [0; 2; 7];
     common_layas := all_layas |}.
Definition ektaal : TaalDefinition :=
  {| name := EKTAAL; matras := 12; vibhags := [2; 2; 2; 2; 2; 2];
     sam_position := 0; khali_positions := [2; 8];
     tali_positions := [0; 4; 6; 10]; common_layas := all_layas |}.
Definition deepchandi : TaalDefinition :=
  {| name := DEEPCHANDI; matras := 14; vibhags := [3; 4; 3; 4];
     sam_position := 0; khali_positions := [7]; tali_positions := [0; 3; 10];
     common_layas := ["vilambit"; "madhya"]%string |}.
Definition teentaal : TaalDefinition :=
  {| name := TEENTAAL; matras := 16; vibhags := [4; 4; 4; 4];
     sam_position := 0; khali_positions := [8]; tali_positions := [0; 4; 12];
     common_layas := all_layas |}.

(** The dict in insertion order, which is its iteration order. *)
Definition TAAL_REGISTRY : list (TaalName * TaalDefinition) :=
  [ (DADRA, dadra); (RUPAK, rupak); (KEHERWA, keherwa); (JHAPTAAL, jhaptaal);
    (EKTAAL, ektaal); (DEEPCHANDI, deepchandi); (TEENTAAL, teentaal) ].

(** [TAAL_REGISTRY.values()] *)
Definition registry_values : list TaalDefinition := map snd TAAL_REGISTRY.

(** [TAAL_REGISTRY[taal_name]] *)
Definition registry_getitem (taal_name : TaalName) : result TaalDefinition :=
  match find (fun kv => TaalName_eqb (fst kv) taal_name) TAAL_REGISTRY with
  | Some kv => Ok (snd kv)
  | None => Raise KeyError
  end.

Definition get_taals_by_matras (m : Z) : list TaalDefinition :=
  filter (fun t => matras t =? m) registry_values.

(** ** Accent template builder ([taal.py]) *)

Local Open Scope float_scope.

Definition _build_expected_accent_pattern
           (taal_name : TaalName) (cycle_length : Z) : result (list float) :=
  taal_def <- registry_getitem taal_name ;;
  ones <- Py.np_ones cycle_length ;;
  let pattern := map (fun x => x * 0.5) ones in
  pattern <- Py.setitem pattern (sam_position taal_def) 1.0 ;;
  pattern <- for_each (tali_positions taal_def) pattern
               (fun pos pattern =>
                  if (pos <? cycle_length)%Z
                  then Py.setitem pattern pos 0.8 else Ok pattern) ;;
  pattern <- for_each (khali_positions taal_def) pattern
               (fun pos pattern =>
                  if (pos <? cycle_length)%Z
                  then Py.setitem pattern pos 0.2 else Ok pattern) ;;
  for_each (vibhag_boundaries taal_def) pattern
    (fun boundary pattern =>
       if (boundary <? cycle_length)%Z then
         cur <- Py.getitem 0 pattern boundary ;;
         if cur =? 0.5 then Py.setitem pattern boundary 0.65 else Ok pattern
       else Ok pattern).

Local Close Scope float_scope.

(** ** Cycle length estimator *)

(** [collections.Counter]: a dict from value to count, kept as an
    association list in first-insertion order (the dict's iteration
    order). *)
Fixpoint counter_add (x : Z) (c : list (Z * Z)) : list (Z * Z) :=
  match c with
  | [] => [(x, 1)]
  | (y, n) :: c' =>
      if y =? x then (y, n + 1) :: c' else (y, n) :: counter_add x c'
  end.

Definition Counter (xs : list Z) : list (Z * Z) :=
  fold_left (fun c x => counter_add x c) xs [].

(** [max(items, key=count)]: the first item with the greatest count. *)
Definition max_by_count (first : Z * Z) (others : list (Z * Z)) : Z * Z :=
  fold_left (fun best kv => if snd best <? snd kv then kv else best)
            others first.

(** [counter.most_common(1)[0][0]] *)
Definition most_common_1 (c : list (Z * Z)) : result Z :=
  match c with
  | [] => Raise IndexError
  | kv :: c' => Ok (fst (max_by_count kv c'))
  end.

(** [np.max] of a non-empty integer array. *)
Definition np_max (xs : list Z) : result Z :=
  match xs with
  | [] => Raise ValueError
  | x :: xs' => Ok (fold_left Z.max xs' x)
  end.

(** The loop of [estimate_cycle_length] over [i in range(1, len)], with
    state [(cycle_lengths, current_max)]. *)
Definition cycle_scan_step (beat_positions : list Z)
           (st : list Z * Z) (i : nat) : list Z * Z :=
  let '(cycle_lengths, current_max) := st in
  if nth i beat_positions 0 <=? nth (i - 1) beat_positions 0
  then (cycle_lengths ++ [current_max + 1], nth i beat_positions 0)
  else (cycle_lengths, Z.max current_max (nth i beat_positions 0)).

(** The recorded cycle lengths, including the trailing partial cycle. *)
Definition recorded_cycle_lengths (beat_positions : list Z) : list Z :=
  let '(cycle_lengths, current_max) :=
    fold_left (cycle_scan_step beat_positions)
              (seq 1 (length beat_positions - 1)) ([], 0) in
  if 0 <? current_max then cycle_lengths ++ [current_max + 1]
  else cycle_lengths.

(** A row of the downbeat array is [(time, beat_position)]; the position
    column is taken after its [astype(int)] cast.  The cast values come
    from float64 and never reach [2^63 - 1], so [current_max + 1] is
    exact. *)
Definition estimate_cycle_length (downbeats : list (float * Z)) : result Z :=
  if Py.len downbeats =? 0 then Ok 0
  else
    let beat_positions := map snd downbeats in
    let cycle_lengths := recorded_cycle_lengths beat_positions in
    match cycle_lengths with
    | [] => m <- np_max beat_positions ;; Ok (m + 1)
    | _ => most_common_1 (Counter cycle_lengths)
    end.

(** ** Pattern matcher *)

Local Open Scope float_scope.

(** [sorted(results, key=lambda x: x[1], reverse=True)]: a stable sort by
    descending confidence that only uses [<] on the keys.  Insertion from
    the right keeps equal keys in their original order.  On keys that
    are all comparable every stable sort returns this list; the keys
    sorted here are never NaN ([clamp_in_unit_interval],
    [penalty_not_nan] below). *)
Fixpoint insert_desc (x : TaalName * float) (l : list (TaalName * float))
  : list (TaalName * float) :=
  match l with
  | [] => [x]
  | y :: l' => if snd x <? snd y then y :: insert_desc x l' else x :: y :: l'
  end.

Definition sorted_desc (l : list (TaalName * float)) : list (TaalName * float) :=
  fold_right insert_desc [] l.

(** [trimmed.reshape(n, cycle_length)]: the rows of the 2-D view; a size
    mismatch raises [ValueError]. *)
Fixpoint rows_of (n cl : nat) (xs : list float) : list (list float) :=
  match n with
  | O => []
  | S n' => firstn cl xs :: rows_of n' cl (skipn cl xs)
  end.

Definition reshape (xs : list float) (n cl : Z) : result (list (list float)) :=
  if (Py.len xs =? n * cl)%Z
  then Ok (rows_of (Z.to_nat n) (Z.to_nat cl) xs)
  else Raise ValueError.

(** Elementwise sum of an accumulator row and a row of the same length. *)
Fixpoint add_rows (acc row : list float) : list float :=
  match acc, row with
  | a :: acc', r :: row' => (a + r) :: add_rows acc' row'
  | _, _ => []
  end.

(** The sum of a contiguous run as NumPy's add loop takes it when it
    reduces along the contiguous axis ([DOUBLE_pairwise_sum]).  A run of
    8 to 128 values is added in eight interleaved partial sums
    [r[0..7]], which are then combined pairwise; what is left after the
    last whole block of 8 is added one value at a time. *)
Definition unrolled_sum (xs : list float) : float :=
  let blocks := (length xs / 8)%nat in
  let r := fold_left add_rows (rows_of (blocks - 1) 8 (skipn 8 xs))
                     (firstn 8 xs) in
  let res := ((nth 0 r 0 + nth 1 r 0) + (nth 2 r 0 + nth 3 r 0))
             + ((nth 4 r 0 + nth 5 r 0) + (nth 6 r 0 + nth 7 r 0)) in
  fold_left add (skipn (8 * blocks) xs) res.

(** A run shorter than 8 is added from left to right, starting from a
    zero; the sign of that zero does not show once the sum is added
    onto the identity [0.0] ([short_sum_start] below).  A run longer
    than 128 is split at [n/2] rounded down to a multiple of 8 and the
    sums of the two parts are added.  [fuel] bounds the depth of the
    splitting; the length of the run is enough ([pairwise_sum_fuel]
    below), so the branch for no fuel is never taken. *)
Fixpoint pairwise_sum (fuel : nat) (xs : list float) : float :=
  let n := length xs in
  if (n <? 8)%nat then fold_left add xs 0
  else if (n <=? 128)%nat then unrolled_sum xs
  else
    match fuel with
    | O => unrolled_sum xs
    | S fuel' =>
        let n2 := (n / 2 - (n / 2) mod 8)%nat in
        pairwise_sum fuel' (firstn n2 xs) + pairwise_sum fuel' (skipn n2 xs)
    end.

Definition np_sum_contiguous (xs : list float) : float :=
  pairwise_sum (length xs) xs.

(** [np.add.reduce(cycles, axis=0)] for [n] rows of [cl] columns, from
    the additive identity [0.0].  The array is C-contiguous.  With more
    than one column NumPy iterates along the rows and adds them one
    after the other onto the result, so every column is summed from
    left to right.  With a single column the reduced axis is the
    contiguous one and the whole column goes through the pairwise
    loop, whose result is added onto the identity. *)
Definition np_add_reduce_axis0 (cycles : list (list float)) (cl : Z)
  : list float :=
  if (cl =? 1)%Z then [0 + np_sum_contiguous (concat cycles)]
  else fold_left add_rows cycles (repeat 0 (Z.to_nat cl)).

(** [np.mean(cycles, axis=0)]: the sums of [np.add.reduce] divided by
    the row count. *)
Definition np_mean_axis0 (cycles : list (list float)) (cl : Z) : list float :=
  map (fun s => s / Py.float_of_int (Py.len cycles))
      (np_add_reduce_axis0 cycles cl).

Definition _average_cyclic_pattern (strengths : list float) (cycle_length : Z)
  : result (list float) :=
  if (Py.len strengths =? 0)%Z || (cycle_length <=? 0)%Z
  then Py.np_zeros cycle_length
  else
    let n_full_cycles := (Py.len strengths / cycle_length)%Z in
    if (n_full_cycles =? 0)%Z then
      padded <- Py.np_zeros cycle_length ;;
      Ok (strengths ++ skipn (length strengths) padded)
    else
      let trimmed :=
        firstn (Z.to_nat (n_full_cycles * cycle_length)) strengths in
      cycles <- reshape trimmed n_full_cycles cycle_length ;;
      Ok (np_mean_axis0 cycles cycle_length).

(** [np.dot] of two 1-D arrays; different lengths raise [ValueError].
    The products are accumulated from left to right (the order inside the
    BLAS routine is not fixed by NumPy; no theorem below depends on it). *)
Definition np_dot (x y : list float) : result float :=
  if (Py.len x =? Py.len y)%Z
  then Ok (fold_left (fun acc ab => acc + fst ab * snd ab) (combine x y) 0)
  else Raise ValueError.

(** [np.linalg.norm] of a 1-D real array: [sqrt(x.dot(x))].  The squares
    are accumulated from left to right; as for [np.dot], the order inside
    the BLAS routine is not fixed by NumPy, and the theorems below use
    the norm only through its being a float and through the norm of a
    zero vector, which is [0.0] in every order. *)
Definition np_linalg_norm (arr : list float) : float :=
  sqrt (fold_left (fun acc a => acc + a * a) arr 0).

Definition _normalize (arr : list float) : list float :=
  let norm := np_linalg_norm arr in
  if norm =? 0 then arr else map (fun a => a / norm) arr.

Definition match_accent_pattern (observed_pattern : list float)
           (cycle_length : Z) : result (list (TaalName * float)) :=
  let candidates := get_taals_by_matras cycle_length in
  match candidates with
  | [] => Ok []
  | _ =>
      results <- for_each candidates []
        (fun taal_def results =>
           expected <- _build_expected_accent_pattern (name taal_def) cycle_length ;;
           avg_pattern <- _average_cyclic_pattern observed_pattern cycle_length ;;
           let obs_norm := _normalize avg_pattern in
           let exp_norm := _normalize expected in
           similarity <- np_dot obs_norm exp_norm ;;
           let confidence := Py.max 0.0 (Py.min 1.0 similarity) in
           Ok (results ++ [(name taal_def, confidence)])) ;;
      Ok (sorted_desc results)
  end.

(** ** Retry and fallback *)

Definition penalize (r : TaalName * float) : TaalName * float :=
  (fst r, snd r * 0.8).

Definition _try_nearby_cycle_lengths (accent_strengths : list float)
           (cycle_length : Z) : result (list (TaalName * float)) :=
  all_rankings <- for_each [-1; 1; -2; 2]%Z []
    (fun offset all_rankings =>
       let nearby := (cycle_length + offset)%Z in
       if (0 <? nearby)%Z then
         rankings <- match_accent_pattern accent_strengths nearby ;;
         Ok (all_rankings ++ map penalize rankings)
       else Ok all_rankings) ;;
  Ok (sorted_desc all_rankings).

(** *** Tempo ([beats.py]) *)

(** [np.diff] *)
Fixpoint compute_ioi (beat_times : list float) : list float :=
  match beat_times with
  | a :: (b :: _) as rest => (b - a) :: compute_ioi rest
  | _ => []
  end.

(** Ascending order of NumPy's sort: NaN goes last. *)
Definition np_lt (a b : float) : bool :=
  (a <? b) || (is_nan b && negb (is_nan a)).

Fixpoint insert_asc (x : float) (l : list float) : list float :=
  match l with
  | [] => [x]
  | y :: l' => if np_lt y x then y :: insert_asc x l' else x :: y :: l'
  end.

(** [np.median] of a non-empty 1-D array: the mean of the middle one or
    two entries of the sorted array, NaN if any entry is NaN. *)
Definition np_median (xs : list float) : float :=
  let part := fold_right insert_asc [] xs in
  let sz := length part in
  let index := Nat.div sz 2 in
  let mid :=
    if Nat.eqb (Nat.modulo sz 2) 1
    then firstn 1 (skipn index part)
    else firstn 2 (skipn (index - 1) part) in
  let rout := fold_left add mid 0 / Py.float_of_int (Py.len mid) in
  if existsb is_nan part then nan else rout.

Definition estimate_tempo (beat_times : list float) : float :=
  if (Py.len beat_times <? 2)%Z then 0.0
  else
    let iois := compute_ioi beat_times in
    let median_ioi := np_median iois in
    if median_ioi <=? 0 then 0.0 else 60.0 / median_ioi.

(** [min(values, key=...)] with an integer key: the first minimal item;
    an empty sequence raises [ValueError]. *)
Definition min_by_key {A : Type} (key : A -> Z) (xs : list A) : result A :=
  match xs with
  | [] => Raise ValueError
  | x :: xs' =>
      Ok (fold_left (fun best t => if (key t <? key best)%Z then t else best)
                    xs' x)
  end.

Definition _build_fallback_result (beats : list float) (cycle_length : Z)
  : result TaalDetectionResult :=
  let tempo := estimate_tempo beats in
  closest_taal <- min_by_key (fun t => Z.abs (matras t - cycle_length))
                             registry_values ;;
  let matra_duration := if 0 <? tempo then 60.0 / tempo else 0.0 in
  Ok {| taal := name closest_taal;
        confidence := 0.1;
        tempo_bpm := Py.round tempo 1;
        matra_duration := Py.round matra_duration 4;
        cycle_duration :=
          Py.round (matra_duration * Py.float_of_int (matras closest_taal)) 4;
        beats := [];
        alternative_taals := [] |}.

(** ** Beat annotator *)

Definition _build_beat_infos (beats strengths : list float)
           (taal_def : TaalDefinition) : result (list BeatInfo) :=
  r <- for_each beats ([], 0%Z)
    (fun beat_time st =>
       let '(beat_infos, i) := st in
       if (matras taal_def =? 0)%Z then Raise ZeroDivisionError
       else
         let pos := (i mod matras taal_def)%Z in
         strength <-
           (if (i <? Py.len strengths)%Z
            then s <- Py.getitem 0 strengths i ;; Ok (Py.round s 4)
            else Ok 0.0) ;;
         Ok (beat_infos ++
               [ {| time := Py.round beat_time 4;
                    beat_position := pos;
                    is_sam := (pos =? sam_position taal_def)%Z;
                    is_khali :=
                      existsb (Z.eqb pos) (khali_positions taal_def);
                    strength := strength |} ],
             (i + 1)%Z)) ;;
  Ok (fst r).

(** ** Detection pipeline

    [detect_taal] after its three calls to the external detector: the
    beat times, the downbeat rows and the per-beat accent strengths are
    the arguments. *)
Definition detect_taal (beats : list float) (downbeats : list (float * Z))
           (accent_strengths : list float) : result TaalDetectionResult :=
  cycle_length <- estimate_cycle_length downbeats ;;
  rankings <- match_accent_pattern accent_strengths cycle_length ;;
  rankings <- (match rankings with
               | [] => _try_nearby_cycle_lengths accent_strengths cycle_length
               | _ => Ok rankings
               end) ;;
  match rankings with
  | [] => _build_fallback_result beats cycle_length
  | (best_taal, best_confidence) :: alternatives =>
      let tempo := estimate_tempo beats in
      taal_def <- registry_getitem best_taal ;;
      let matra_duration := if 0 <? tempo then 60.0 / tempo else 0.0 in
      let cycle_duration :=
        matra_duration * Py.float_of_int (matras taal_def) in
      beat_infos <- _build_beat_infos beats accent_strengths taal_def ;;
      Ok {| taal := best_taal;
            confidence := best_confidence;
            tempo_bpm := Py.round tempo 1;
            matra_duration := Py.round matra_duration 4;
            cycle_duration := Py.round cycle_duration 4;
            beats := beat_infos;
            alternative_taals := alternatives |}
  end.

Local Close Scope float_scope.

(** Synthetic downbeat rows as in the test fixtures: [cycles] bars of
    positions [0 .. len-1], one row every half second from [0.5]. *)
Definition fixture_downbeats (cycles len : nat) : list (float * Z) :=
  let positions := concat (repeat (map Z.of_nat (seq 0 len)) cycles) in
  map (fun ip => ((0.5 + 0.5 * Py.float_of_int (Z.of_nat (fst ip)))%float, snd ip))
      (combine (seq 0 (length positions)) positions).

(** ** Definitions that follow the specification's wording

    These are not translated from the code; the theorems below compare
    them with the code's definitions. *)

(** Section 4.1: scan consecutive positions; [prev] is the previous
    position and [running_max] the running maximum since the last
    reset.  A position [<=] the previous one declares a bar boundary:
    the running maximum plus one is recorded and the running maximum
    restarts from the current position.  At the end a positive running
    maximum is recorded as the trailing partial bar. *)
Fixpoint spec_cycle_scan (prev running_max : Z) (rest : list Z) : list Z :=
  match rest with
  | [] => if 0 <? running_max then [running_max + 1] else []
  | p :: rest' =>
      if p <=? prev
      then (running_max + 1) :: spec_cycle_scan p p rest'
      else spec_cycle_scan p (Z.max running_max p) rest'
  end.

(** The lengths the rule of section 4.1 records: the running maximum is
    the greatest position seen since the last reset, so it starts as
    the first position of the stream. *)
Definition spec_recorded_lengths (positions : list Z) : list Z :=
  match positions with
  | [] => []
  | p :: rest => spec_cycle_scan p p rest
  end.

(** [r] is encountered in [l] before [x] is: the part of [l] before the
    first [r] holds no [x]. *)
Definition first_before (r x : Z) (l : list Z) : Prop :=
  exists l1 l2, l = l1 ++ r :: l2 /\ ~ In r l1 /\ ~ In x l1.

(** How often [k] was recorded. *)
Definition occurrences (l : list Z) (k : Z) : Z :=
  Z.of_nat (count_occ Z.eq_dec l k).

(** Section 4.1: [r] wins the vote over the recorded lengths [l]: it is
    a most frequent value, and the first encountered among the most
    frequent ones. *)
Definition vote_winner (l : list Z) (r : Z) : Prop :=
  In r l
  /\ (forall x, occurrences l x <= occurrences l r)
  /\ (forall x, In x l -> x <> r -> occurrences l x = occurrences l r ->
                first_before r x l).

(** Section 4.3, step 2.  The sum of a list of floats from left to
    right, and the sum of the values of one position across the cycles.
    A floating-point sum depends on the order of its additions; the
    order is the one [np.mean] has for an array of that shape: from
    left to right, except that the single column of cycle length 1 is
    summed by the pairwise loop. *)
Definition float_sum (xs : list float) : float := fold_left add xs 0%float.

Definition sum_across_cycles (cycle_length : Z) (column : list float) : float :=
  if cycle_length =? 1 then (0 + np_sum_contiguous column)%float
  else float_sum column.

(** The per-position mean over [floor(len/cycle_length)] full cycles:
    position [j] averages the strengths at [j], [j + cycle_length],
    [j + 2 cycle_length], ... of the full cycles; with no full cycle the
    sequence is padded with zeros. *)
Definition spec_cyclic_average (strengths : list float) (cycle_length : Z)
  : list float :=
  let n := Py.len strengths / cycle_length in
  if n =? 0 then
    strengths ++ repeat 0%float (Z.to_nat cycle_length - length strengths)
  else
    map (fun j =>
           (sum_across_cycles cycle_length
              (map (fun k => nth (k * Z.to_nat cycle_length + j) strengths 0%float)
                   (seq 0 (Z.to_nat n)))
            / Py.float_of_int n)%float)
        (seq 0 (Z.to_nat cycle_length)).

(** Section 8, round trip: the cycle duration recomputed from a result's
    reported [tempo_bpm] and the matras of its taal ([60/tempo], [0] when
    the tempo is [0], times matras, rounded to four decimals). *)
Definition spec_recompute_cycle_duration (tempo_bpm : float) (matras : Z)
  : float :=
  Py.round ((if (0 <? tempo_bpm)%float then 60 / tempo_bpm else 0)
            * Py.float_of_int matras)%float 4.

(** The weight at index [j] of a template, read off the builder's order
    of assignments: baseline, then sam, then tali, then khali (a later
    assignment wins), then the boundary rule on entries still at the
    baseline. *)
Definition mem_pos (j : nat) (ps : list Z) : bool :=
  existsb (Z.eqb (Z.of_nat j)) ps.

Definition template_weight (t : TaalDefinition) (j : nat) : float :=
  let marked :=
    if mem_pos j (khali_positions t) then 0.2%float
    else if mem_pos j (tali_positions t) then 0.8%float
    else if Z.of_nat j =? sam_position t then 1%float
    else 0.5%float in
  if mem_pos j (vibhag_boundaries t) && (marked =? 0.5)%float
  then 0.65%float else marked.

(** Confidence order and range. *)
Definition conf_ge (a b : TaalName * float) : Prop :=
  (snd b <=? snd a)%float = true.

Definition in_unit_interval (c : float) : Prop :=
  (0 <=? c)%float = true /\ (c <=? 1)%float = true.

Definition not_nan (x : float) : Prop := is_nan x = false.

(** Positions the builder can index: none is negative. *)
Definition nonneg_positions (ps : list Z) : Prop := Forall (fun p => 0 <= p) ps.

(** What the builder relies on in a definition: the sam index lies in the
    cycle and no listed position is negative. *)
Definition well_formed (t : TaalDefinition) : Prop :=
  0 <= sam_position t < matras t
  /\ sam_position t = 0
  /\ nonneg_positions (tali_positions t)
  /\ nonneg_positions (khali_positions t)
  /\ nonneg_positions (vibhag_boundaries t).

(** The recorded lengths once the loop has ended, from the loop state. *)
Definition finish_scan (st : list Z * Z) : list Z :=
  if 0 <? snd st then fst st ++ [snd st + 1] else fst st.

(** The loop of [estimate_cycle_length] as a recursion on the positions
    ([recorded_as_scan] below): the code starts [current_max] at [0] and
    its loop starts at index 1, so the first position is compared with
    but never enters the maximum. *)
Definition loop_recorded_lengths (positions : list Z) : list Z :=
  match positions with
  | [] => []
  | p :: rest => spec_cycle_scan p 0 rest
  end.

(** The counter after the records [L]: one entry per recorded value,
    holding its multiplicity, in order of first encounter. *)
Record counter_inv (L : list Z) (c : list (Z * Z)) : Prop := {
  inv_nodup : NoDup (map fst c);
  inv_count : forall k n, In (k, n) c -> n = occurrences L k /\ In k L;
  inv_keys : forall k, In k L -> exists n, In (k, n) c;
  inv_order : ForallOrdPairs (fun a b => first_before a b L) (map fst c)
}.

Local Open Scope float_scope.

(** One retry attempt at length [nearby]: skipped when the length is not
    positive, otherwise the matcher's ranking there with every
    confidence multiplied by [0.8]. *)
Definition retry_attempt (accent_strengths : list float) (nearby : Z)
           (penalized : list (TaalName * float)) : Prop :=
  if (0 <? nearby)%Z then
    exists rankings,
      match_accent_pattern accent_strengths nearby = Ok rankings
      /\ penalized = map penalize rankings
  else penalized = [].

(** Section 4.5 of the specification: beat [i] gets position
    [i mod matras]; strength is [0.0] when the strength array does not
    reach index [i]. *)
Definition spec_beat_info (t : TaalDefinition) (strengths : list float)
           (i : Z) (beat_time : float) : BeatInfo :=
  {| time := Py.round beat_time 4;
     beat_position := (i mod matras t)%Z;
     is_sam := ((i mod matras t)%Z =? sam_position t)%Z;
     is_khali := existsb (Z.eqb (i mod matras t)%Z) (khali_positions t);
     strength := if (i <? Py.len strengths)%Z
                 then Py.round (nth (Z.to_nat i) strengths 0) 4 else 0 |}.

Fixpoint spec_beat_infos (t : TaalDefinition) (strengths : list float)
         (i : Z) (beats : list float) : list BeatInfo :=
  match beats with
  | [] => []
  | b :: bs => spec_beat_info t strengths i b :: spec_beat_infos t strengths (i + 1) bs
  end.

Local Close Scope float_scope.

(** ** Further functions of the code *)

(** [TAAL_REGISTRY.get(taal_name)]: [None] for a missing key. *)
Definition registry_get (taal_name : TaalName) : option TaalDefinition :=
  match find (fun kv => TaalName_eqb (fst kv) taal_name) TAAL_REGISTRY with
  | Some kv => Some (snd kv)
  | None => None
  end.

(** [sorted(xs)] on integers: ascending. *)
Fixpoint insert_asc_Z (x : Z) (l : list Z) : list Z :=
  match l with
  | [] => [x]
  | y :: l' => if y <? x then y :: insert_asc_Z x l' else x :: y :: l'
  end.

Definition sorted_asc_Z (l : list Z) : list Z := fold_right insert_asc_Z [] l.

(** [get_candidate_matra_counts] ([taals/definitions.py]): the set of the
    registered matras, sorted.  The set is kept as the list of distinct
    values; its sorted list does not depend on the set's order. *)
Definition get_candidate_matra_counts : list Z :=
  sorted_asc_Z (nodup Z.eq_dec (map matras registry_values)).

Local Open Scope float_scope.

(** [_classify_laya] ([taal.py]) *)
Definition _classify_laya (bpm : float) (taal_name : TaalName) : string :=
  match registry_get taal_name with
  | None => "madhya"
  | Some taal_def =>
      let matra_rate := bpm in
      if matra_rate <? 60 then "vilambit"
      else if matra_rate <? 160 then "madhya"
      else "drut"
  end.

(** [_classify_laya_label] ([viz.py]) *)
Definition _classify_laya_label (bpm : float) : string :=
  if bpm <? 60 then "Vilambit Laya"
  else if bpm <? 160 then "Madhya Laya"
  else "Drut Laya".

Local Close Scope float_scope.

(** *** Helpers for the statements below *)

(** Sum of a list of integers. *)
Definition sum_Z (l : list Z) : Z := fold_right Z.add 0 l.

(** The rank of a laya class: slow, medium, fast. *)
Definition laya_rank (laya : string) : Z :=
  if String.eqb laya "vilambit" then 0
  else if String.eqb laya "madhya" then 1
  else 2.

(** The display label of a laya class. *)
Definition laya_label (laya : string) : string :=
  if String.eqb laya "vilambit" then "Vilambit Laya"
  else if String.eqb laya "madhya" then "Madhya Laya"
  else "Drut Laya".

(** [cycles] bars of the positions [0 .. n-1]. *)
Definition repeated_cycles (n cycles : nat) : list Z :=
  concat (repeat (map Z.of_nat (seq 0 n)) cycles).

(** * Properties *)

(** ** The exception monad *)

Lemma bind_Ok {A B : Type} (m : result A) (k : A -> result B) (b : B) :
  bind m k = Ok b -> exists a, m = Ok a /\ k a = Ok b.
Proof.
  destruct m as [a|e]; simpl; intros H; [eauto | discriminate].
Qed.

Lemma for_each_step {A S : Type} (x : A) (xs : list A) (s s' : S)
      (body : A -> S -> result S) :
  body x s = Ok s' -> for_each (x :: xs) s body = for_each xs s' body.
Proof.
  intros H. simpl. now rewrite H.
Qed.

(** ** Order of binary64 values *)

Section FloatOrder.
Local Open Scope float_scope.

Lemma compare_cont_flip (p q : positive) :
  PosDef.Pos.compare_cont Eq q p = CompOpp (PosDef.Pos.compare_cont Eq p q).
Proof. exact (eq_sym (Pos.compare_cont_antisym p q Eq)). Qed.

Lemma SFcompare_antisym (x y : spec_float) :
  SFcompare y x = option_map CompOpp (SFcompare x y).
Proof.
  destruct x as [sx|sx| |sx mx ex], y as [sy|sy| |sy my ey]; simpl;
    try reflexivity;
    try (destruct sx; reflexivity); try (destruct sy; reflexivity);
    try (destruct sx, sy; reflexivity).
  destruct sx, sy; simpl; try reflexivity;
    rewrite (Z.compare_antisym ex ey);
    destruct (ex ?= ey)%Z; simpl; try reflexivity;
    rewrite (compare_cont_flip mx my); reflexivity.
Qed.

Lemma ltb_leb (x y : float) : (x <? y) = true -> (x <=? y) = true.
Proof.
  rewrite ltb_spec, leb_spec. unfold SFltb, SFleb.
  destruct (SFcompare (Prim2SF x) (Prim2SF y)) as [[]|]; congruence.
Qed.

Lemma ltb_asym (x y : float) : (x <? y) = true -> (y <? x) = false.
Proof.
  rewrite !ltb_spec. unfold SFltb.
  rewrite (SFcompare_antisym (Prim2SF x) (Prim2SF y)).
  destruct (SFcompare (Prim2SF x) (Prim2SF y)) as [[]|]; simpl; congruence.
Qed.

Lemma not_nan_spec (x : float) : not_nan x <-> Prim2SF x <> S754_nan.
Proof.
  unfold not_nan, is_nan. rewrite eqb_spec. unfold SFeqb.
  destruct (Prim2SF x) as [s|s| |s m e]; simpl.
  - split; [discriminate | reflexivity].
  - destruct s; split; (discriminate || reflexivity).
  - split; [discriminate | congruence].
  - destruct s; rewrite Z.compare_refl, Pos.compare_cont_refl; simpl;
      split; (discriminate || reflexivity).
Qed.

Lemma SFcompare_some (x y : spec_float) :
  x <> S754_nan -> y <> S754_nan -> exists c, SFcompare x y = Some c.
Proof.
  destruct x, y; simpl; intros; try congruence; eauto.
Qed.

Lemma nltb_leb (x y : float) :
  not_nan x -> not_nan y -> (x <? y) = false -> (y <=? x) = true.
Proof.
  rewrite !not_nan_spec, ltb_spec, leb_spec. unfold SFltb, SFleb.
  intros Hx Hy. rewrite (SFcompare_antisym (Prim2SF x) (Prim2SF y)).
  destruct (SFcompare_some _ _ Hx Hy) as [c ->]. destruct c; simpl; congruence.
Qed.

Lemma leb_not_nan_r (x y : float) : (x <=? y) = true -> not_nan y.
Proof.
  rewrite not_nan_spec, leb_spec. unfold SFleb.
  destruct (Prim2SF x), (Prim2SF y); simpl; congruence.
Qed.

Lemma in_unit_interval_not_nan (c : float) : in_unit_interval c -> not_nan c.
Proof. intros [H _]. exact (leb_not_nan_r _ _ H). Qed.

(** The clamp [max(0.0, min(1.0, s))] lands in [[0, 1]] whatever [s]
    is, NaN and infinities included. *)
Lemma clamp_in_unit_interval (s : float) :
  in_unit_interval (Py.max 0 (Py.min 1 s)).
Proof.
  unfold Py.max, Py.min, in_unit_interval.
  destruct (s <? 1) eqn:H1.
  - destruct (0 <? s) eqn:H0.
    + split; apply ltb_leb; assumption.
    + split; reflexivity.
  - split; reflexivity.
Qed.
End FloatOrder.

(** ** Rounding never invents a NaN *)

Section Rounding.
Lemma iter_pos_inv {A : Type} (P : A -> Prop) (f : A -> A) :
  (forall a, P a -> P (f a)) -> forall n a, P a -> P (iter_pos f n a).
Proof.
  intros Hf. induction n as [n IH|n IH|]; intros a Ha; simpl; auto.
Qed.

Lemma shr_1_nonneg (mrs : shr_record) :
  0 <= shr_m mrs -> 0 <= shr_m (shr_1 mrs).
Proof.
  destruct mrs as [m r s]. simpl.
  destruct m as [|[p|p|]|[p|p|]]; simpl; lia.
Qed.

Lemma shr_fexp_nonneg (m e : Z) (l : location) :
  0 <= m -> 0 <= shr_m (fst (shr_fexp prec emax m e l)).
Proof.
  intros Hm. unfold shr_fexp, shr.
  assert (H0 : 0 <= shr_m (shr_record_of_loc m l)).
  { destruct l as [|[]]; exact Hm. }
  destruct (fexp prec emax (Zdigits2 m + e) - e) as [|p|p]; simpl; trivial.
  apply (iter_pos_inv (fun r => 0 <= shr_m r)); trivial.
  exact shr_1_nonneg.
Qed.

Lemma round_nearest_even_nonneg (m : Z) (l : location) :
  0 <= m -> 0 <= round_nearest_even m l.
Proof.
  intros Hm. destruct l as [|[]]; simpl; try lia.
  destruct (Z.even m); lia.
Qed.

Lemma binary_round_aux_not_nan (s : bool) (m e : Z) (l : location) :
  0 <= m -> binary_round_aux prec emax s m e l <> S754_nan.
Proof.
  intros Hm. unfold binary_round_aux.
  pose proof (shr_fexp_nonneg m e l Hm) as H1.
  destruct (shr_fexp prec emax m e l) as [mrs' e']. simpl in H1.
  pose proof (shr_fexp_nonneg _ e' loc_Exact
                (round_nearest_even_nonneg _ (loc_of_shr_record mrs') H1)) as H2.
  destruct (shr_fexp prec emax _ e' loc_Exact) as [mrs'' e'']. simpl in H2.
  destruct (shr_m mrs'') as [|p|p]; try discriminate; try lia.
  destruct (e'' <=? emax - prec); discriminate.
Qed.

Local Open Scope float_scope.

(** A product of a value in [[0, 1]] with a finite constant is not NaN. *)
Lemma mul_finite_not_nan (c k : float) :
  in_unit_interval c ->
  (exists s m e, Prim2SF k = S754_finite s m e) ->
  not_nan (c * k).
Proof.
  intros [H0 H1] (s & m & e & Hk). apply not_nan_spec.
  rewrite leb_spec in H0, H1. rewrite mul_spec, Hk.
  unfold SFleb in H0, H1. unfold SF64mul.
  change (Prim2SF 0) with (S754_zero false) in H0.
  change (Prim2SF 1) with (S754_finite false 4503599627370496 (-52)) in H1.
  destruct (Prim2SF c) as [sc|sc| |sc mc ec].
  - discriminate.
  - destruct sc; discriminate.
  - discriminate.
  - apply binary_round_aux_not_nan. lia.
Qed.

(** The retry penalty keeps a confidence comparable. *)
Lemma penalty_not_nan (c : float) : in_unit_interval c -> not_nan (c * 0.8).
Proof.
  intros H. apply mul_finite_not_nan; trivial.
  exists false, 7205759403792794%positive, (-53)%Z. reflexivity.
Qed.
End Rounding.

(** ** Indexing *)

Section Indexing.
Context {A : Type}.

Lemma norm_index_in_range (xs : list A) (i : Z) :
  0 <= i < Py.len xs -> Py.norm_index xs i = Ok (Z.to_nat i).
Proof.
  intros [H0 H1]. unfold Py.norm_index.
  apply Z.leb_le in H0. apply Z.ltb_lt in H1. now rewrite H0, H1.
Qed.

Lemma set_nth_length (n : nat) (v : A) (xs : list A) :
  length (Py.set_nth n v xs) = length xs.
Proof.
  revert n. induction xs as [|x xs IH]; intros [|n]; simpl; auto.
Qed.

Lemma nth_set_nth (d : A) (n j : nat) (v : A) (xs : list A) :
  (n < length xs)%nat ->
  nth j (Py.set_nth n v xs) d = if Nat.eqb j n then v else nth j xs d.
Proof.
  revert n j. induction xs as [|x xs IH]; intros n j Hn; simpl in Hn.
  - lia.
  - destruct n as [|n], j as [|j]; simpl; trivial.
    apply IH. lia.
Qed.

Lemma setitem_in_range (xs : list A) (i : Z) (v : A) :
  0 <= i < Py.len xs -> Py.setitem xs i v = Ok (Py.set_nth (Z.to_nat i) v xs).
Proof.
  intros H. unfold Py.setitem. now rewrite (norm_index_in_range xs i H).
Qed.

Lemma getitem_in_range (d : A) (xs : list A) (i : Z) :
  0 <= i < Py.len xs -> Py.getitem d xs i = Ok (nth (Z.to_nat i) xs d).
Proof.
  intros H. unfold Py.getitem. now rewrite (norm_index_in_range xs i H).
Qed.
End Indexing.

Lemma mem_pos_cons (j : nat) (a : Z) (ps : list Z) :
  mem_pos j (a :: ps) = (Z.of_nat j =? a) || mem_pos j ps.
Proof. reflexivity. Qed.

Lemma eqb_to_nat (j : nat) (a : Z) :
  0 <= a -> Nat.eqb j (Z.to_nat a) = (Z.of_nat j =? a).
Proof.
  intros Ha. destruct (Nat.eqb_spec j (Z.to_nat a)) as [E|E];
    destruct (Z.eqb_spec (Z.of_nat j) a) as [E'|E']; trivial; lia.
Qed.

(** ** The template builder, loop by loop *)

Section Builder.
Local Open Scope float_scope.

Variable cycle_length : Z.

(** The tali and khali loops: every listed position inside the array is
    set to [v]; positions [>= cycle_length] are skipped. *)
Lemma marking_loop (v : float) (ps : list Z) :
  Forall (fun p => (0 <= p)%Z) ps ->
  forall pattern, Py.len pattern = cycle_length ->
  exists pattern',
    for_each ps pattern
      (fun pos pattern =>
         if (pos <? cycle_length)%Z
         then Py.setitem pattern pos v else Ok pattern) = Ok pattern'
    /\ Py.len pattern' = cycle_length
    /\ forall j, (j < length pattern)%nat ->
         nth j pattern' 0 = if mem_pos j ps then v else nth j pattern 0.
Proof.
  induction 1 as [|a ps Ha _ IH]; intros pattern Hlen; cbn [for_each].
  - exists pattern. auto.
  - destruct (Z.ltb_spec a cycle_length) as [Hlt|Hge].
    + rewrite setitem_in_range by lia. cbn [bind].
      assert (Hn : (Z.to_nat a < length pattern)%nat)
        by (unfold Py.len in Hlen; lia).
      destruct (IH (Py.set_nth (Z.to_nat a) v pattern)) as (p' & Hrun & Hl & Hnth).
      { unfold Py.len in *. now rewrite set_nth_length. }
      exists p'. split; [exact Hrun|]. split; [exact Hl|].
      intros j Hj. rewrite Hnth by now rewrite set_nth_length.
      rewrite mem_pos_cons, (nth_set_nth 0 _ _ _ _ Hn), (eqb_to_nat j a Ha).
      destruct (mem_pos j ps); [now rewrite orb_true_r|].
      rewrite orb_false_r. reflexivity.
    + destruct (IH pattern Hlen) as (p' & Hrun & Hl & Hnth).
      exists p'. split; [exact Hrun|]. split; [exact Hl|].
      intros j Hj. rewrite (Hnth j Hj), mem_pos_cons.
      destruct (Z.eqb_spec (Z.of_nat j) a) as [E|E]; trivial.
      unfold Py.len in Hlen. lia.
Qed.

(** The boundary loop: a listed position inside the array is raised to
    [0.65] exactly when its entry is still the baseline [0.5]. *)
Lemma boundary_loop (bs : list Z) :
  Forall (fun p => (0 <= p)%Z) bs ->
  forall pattern, Py.len pattern = cycle_length ->
  exists pattern',
    for_each bs pattern
      (fun boundary pattern =>
         if (boundary <? cycle_length)%Z then
           cur <- Py.getitem 0 pattern boundary ;;
           if cur =? 0.5 then Py.setitem pattern boundary 0.65 else Ok pattern
         else Ok pattern) = Ok pattern'
    /\ Py.len pattern' = cycle_length
    /\ forall j, (j < length pattern)%nat ->
         nth j pattern' 0 =
         if mem_pos j bs && (nth j pattern 0 =? 0.5)
         then 0.65 else nth j pattern 0.
Proof.
  induction 1 as [|a bs Ha _ IH]; intros pattern Hlen; cbn [for_each].
  - exists pattern. auto.
  - destruct (Z.ltb_spec a cycle_length) as [Hlt|Hge].
    + rewrite getitem_in_range by lia. cbn [bind].
      assert (Hn : (Z.to_nat a < length pattern)%nat)
        by (unfold Py.len in Hlen; lia).
      destruct (nth (Z.to_nat a) pattern 0 =? 0.5) eqn:Hcur.
      * rewrite setitem_in_range by lia. cbn [bind].
        destruct (IH (Py.set_nth (Z.to_nat a) 0.65 pattern))
          as (p' & Hrun & Hl & Hnth).
        { unfold Py.len in *. now rewrite set_nth_length. }
        exists p'. split; [exact Hrun|]. split; [exact Hl|].
        intros j Hj. rewrite Hnth by now rewrite set_nth_length.
        rewrite mem_pos_cons, (nth_set_nth 0 _ _ _ _ Hn), (eqb_to_nat j a Ha).
        destruct (Z.eqb_spec (Z.of_nat j) a) as [E|E]; simpl.
        -- replace j with (Z.to_nat a) by lia. rewrite Hcur.
           change (0.65 =? 0.5) with false. now rewrite andb_false_r.
        -- reflexivity.
      * destruct (IH pattern Hlen) as (p' & Hrun & Hl & Hnth).
        exists p'. split; [exact Hrun|]. split; [exact Hl|].
        intros j Hj. rewrite (Hnth j Hj), mem_pos_cons.
        destruct (Z.eqb_spec (Z.of_nat j) a) as [E|E]; simpl; trivial.
        replace j with (Z.to_nat a) by lia. rewrite Hcur.
        now rewrite andb_false_r.
    + destruct (IH pattern Hlen) as (p' & Hrun & Hl & Hnth).
      exists p'. split; [exact Hrun|]. split; [exact Hl|].
      intros j Hj. rewrite (Hnth j Hj), mem_pos_cons.
      destruct (Z.eqb_spec (Z.of_nat j) a) as [E|E]; trivial.
      unfold Py.len in Hlen. lia.
Qed.
End Builder.

(** ** The registry *)

Lemma registry_well_formed : Forall well_formed registry_values.
Proof.
  repeat constructor; vm_compute; congruence.
Qed.

Lemma registry_getitem_total (n : TaalName) :
  exists t, registry_getitem n = Ok t /\ In t registry_values /\ name t = n.
Proof.
  destruct n; eexists; (split; [reflexivity|]); (split; [|reflexivity]);
    simpl; tauto.
Qed.

Lemma registry_getitem_name (t : TaalDefinition) :
  In t registry_values -> registry_getitem (name t) = Ok t.
Proof.
  simpl. intros H.
  repeat (destruct H as [<-|H]; [reflexivity|]). contradiction.
Qed.

Lemma get_taals_by_matras_In (m : Z) (t : TaalDefinition) :
  In t (get_taals_by_matras m) <-> In t registry_values /\ matras t = m.
Proof.
  unfold get_taals_by_matras. rewrite filter_In, Z.eqb_eq. reflexivity.
Qed.

(** ** The accent template *)

Section Template.
Local Open Scope float_scope.

Lemma build_pattern_pointwise (taal_name : TaalName) (t : TaalDefinition)
      (cycle_length : Z) :
  registry_getitem taal_name = Ok t ->
  (0 <= sam_position t < cycle_length)%Z ->
  nonneg_positions (tali_positions t) ->
  nonneg_positions (khali_positions t) ->
  nonneg_positions (vibhag_boundaries t) ->
  exists pattern,
    _build_expected_accent_pattern taal_name cycle_length = Ok pattern
    /\ Py.len pattern = cycle_length
    /\ forall j, (Z.of_nat j < cycle_length)%Z ->
         nth j pattern 0 = template_weight t j.
Proof.
  intros Hget Hsam Htali Hkhali Hbound.
  unfold _build_expected_accent_pattern. rewrite Hget. cbn [bind].
  unfold Py.np_ones, Py.np_full.
  destruct (Z.ltb_spec cycle_length 0) as [Hneg|Hpos]; [lia|]. cbn [bind].
  rewrite map_repeat. change (1 * 0.5) with 0.5.
  set (n := Z.to_nat cycle_length).
  assert (Hlen0 : Py.len (repeat 0.5 n) = cycle_length).
  { unfold Py.len. rewrite repeat_length. subst n. lia. }
  rewrite setitem_in_range by lia. cbn [bind].
  set (p0 := Py.set_nth (Z.to_nat (sam_position t)) 1 (repeat 0.5 n)).
  assert (Hl0 : length p0 = n).
  { subst p0. now rewrite set_nth_length, repeat_length. }
  assert (Hlen1 : Py.len p0 = cycle_length).
  { unfold Py.len. rewrite Hl0. subst n. lia. }
  destruct (marking_loop cycle_length 0.8 _ Htali p0 Hlen1)
    as (p1 & -> & Hlen2 & Hn1). cbn [bind].
  destruct (marking_loop cycle_length 0.2 _ Hkhali p1 Hlen2)
    as (p2 & -> & Hlen3 & Hn2). cbn [bind].
  destruct (boundary_loop cycle_length _ Hbound p2 Hlen3)
    as (p3 & -> & Hlen4 & Hn3).
  exists p3. split; [reflexivity|]. split; [exact Hlen4|].
  intros j Hj.
  assert (Hj0 : (j < n)%nat) by (subst n; lia).
  assert (Hj1 : (j < length p1)%nat) by (unfold Py.len in *; lia).
  assert (Hj2 : (j < length p2)%nat) by (unfold Py.len in *; lia).
  rewrite (Hn3 j Hj2), (Hn2 j Hj1), (Hn1 j) by now rewrite Hl0.
  unfold p0. rewrite (nth_set_nth 0) by (rewrite repeat_length; subst n; lia).
  rewrite (eqb_to_nat j _ (proj1 Hsam)), nth_repeat_lt by exact Hj0.
  reflexivity.
Qed.
End Template.

(** ** First minimum of a sequence *)

Section FirstMin.
Context {A : Type} (key : A -> Z).

Let step (best t : A) : A := if key t <? key best then t else best.

Lemma fold_min_spec (xs l1 l2 : list A) (b : A) :
  (forall u, In u l1 -> key b < key u) ->
  (forall u, In u l2 -> key b <= key u) ->
  exists l1' l2',
    l1 ++ b :: l2 ++ xs = l1' ++ fold_left step xs b :: l2'
    /\ (forall u, In u l1' -> key (fold_left step xs b) < key u)
    /\ (forall u, In u l2' -> key (fold_left step xs b) <= key u).
Proof.
  revert l1 l2 b. induction xs as [|t xs IH]; intros l1 l2 b H1 H2; simpl.
  - exists l1, l2. rewrite app_nil_r. auto.
  - unfold step at 2 4 6. destruct (Z.ltb_spec (key t) (key b)) as [Hlt|Hge].
    + destruct (IH (l1 ++ b :: l2) [] t) as (l1' & l2' & E & Hl & Hr).
      * intros u Hu. apply in_app_or in Hu.
        destruct Hu as [Hu|[<-|Hu]]; [specialize (H1 u Hu)| |specialize (H2 u Hu)]; lia.
      * intros u [].
      * exists l1', l2'. split; [|auto].
        rewrite <- E. rewrite <- app_assoc. reflexivity.
    + destruct (IH l1 (l2 ++ [t]) b) as (l1' & l2' & E & Hl & Hr).
      * exact H1.
      * intros u Hu. apply in_app_or in Hu.
        destruct Hu as [Hu|[<-|[]]]; [exact (H2 u Hu)|lia].
      * exists l1', l2'. split; [|auto].
        rewrite <- E. rewrite <- app_assoc. reflexivity.
Qed.

(** [min(xs, key=key)] returns the first item whose key is minimal. *)
Lemma min_by_key_spec (x : A) (xs : list A) :
  exists m l1 l2,
    min_by_key key (x :: xs) = Ok m
    /\ x :: xs = l1 ++ m :: l2
    /\ (forall u, In u l1 -> key m < key u)
    /\ (forall u, In u l2 -> key m <= key u).
Proof.
  destruct (fold_min_spec xs [] [] x) as (l1 & l2 & E & Hl & Hr);
    try (intros u []).
  exists (fold_left step xs x), l1, l2. repeat split; auto.
Qed.
End FirstMin.

(** ** Properties of the claims: template builder *)

Section TemplateClaims.
Local Open Scope float_scope.

Lemma registered_well_formed (t : TaalDefinition) :
  In t registry_values -> well_formed t.
Proof.
  intros H. exact (proj1 (Forall_forall _ _) registry_well_formed t H).
Qed.

(** The builder on a registered taal: defined for every positive length,
    of that length, with the weights of [template_weight]. *)
Lemma registered_template (t : TaalDefinition) (cycle_length : Z) :
  In t registry_values ->
  (0 < cycle_length)%Z ->
  exists pattern,
    _build_expected_accent_pattern (name t) cycle_length = Ok pattern
    /\ Py.len pattern = cycle_length
    /\ forall j, (Z.of_nat j < cycle_length)%Z ->
         nth j pattern 0 = template_weight t j.
Proof.
  intros Hin Hpos.
  destruct (registered_well_formed t Hin) as (Hsam & Hsam0 & Ht & Hk & Hb).
  apply build_pattern_pointwise; trivial.
  - now apply registry_getitem_name.
  - lia.
Qed.

(** C3. For a registered taal and a positive cycle length the builder
    returns a curve of exactly [cycle_length] entries, also when the
    cycle is shorter than the taal: no index is out of range, and each
    entry is decided by the positions equal to its index, so a tali,
    khali or boundary position [>= cycle_length] leaves no trace. *)
Theorem template_defined_for_every_positive_length
        (t : TaalDefinition) (cycle_length : Z) :
  In t registry_values ->
  (0 < cycle_length)%Z ->
  exists pattern,
    _build_expected_accent_pattern (name t) cycle_length = Ok pattern
    /\ Py.len pattern = cycle_length
    /\ forall j, (Z.of_nat j < cycle_length)%Z ->
         nth j pattern 0 = template_weight t j.
Proof.
  exact (registered_template t cycle_length).
Qed.

Lemma template_defined_witness :
  exists pattern,
    _build_expected_accent_pattern TEENTAAL 3 = Ok pattern
    /\ Py.len pattern = 3%Z
    /\ forall j, (Z.of_nat j < 3)%Z ->
         nth j pattern 0 = template_weight teentaal j.
Proof.
  apply (template_defined_for_every_positive_length teentaal 3).
  - simpl. tauto.
  - reflexivity.
Defined.

(** C1 (the code departs from the claim). For a registered taal and a
    positive cycle length the entry at [sam_position] is not [1.0]: the
    tali loop overwrites it with [0.8], and for Rupak, whose khali list
    holds the sam index, the khali loop leaves [0.2]. *)
Theorem sam_entry_is_overwritten (t : TaalDefinition) (cycle_length : Z) :
  In t registry_values ->
  (0 < cycle_length)%Z ->
  exists pattern w,
    _build_expected_accent_pattern (name t) cycle_length = Ok pattern
    /\ Py.getitem 0 pattern (sam_position t) = Ok w
    /\ w = (if mem_pos 0 (khali_positions t) then 0.2 else 0.8)
    /\ (w =? 1) = false.
Proof.
  intros Hin Hpos.
  destruct (registered_template t cycle_length Hin Hpos)
    as (p & Hrun & Hlen & Hnth).
  destruct (registered_well_formed t Hin) as (_ & Hsam0 & _).
  exists p, (template_weight t 0). split; [exact Hrun|].
  rewrite Hsam0, getitem_in_range by lia.
  change (Z.to_nat 0) with 0%nat.
  rewrite (Hnth 0%nat) by (simpl; lia).
  split; [reflexivity|].
  simpl in Hin.
  repeat (destruct Hin as [<-|Hin]; [split; reflexivity|]). contradiction.
Qed.

Lemma sam_entry_dadra :
  exists pattern w,
    _build_expected_accent_pattern DADRA 6 = Ok pattern
    /\ Py.getitem 0 pattern 0 = Ok w
    /\ w = 0.8
    /\ (w =? 1) = false.
Proof.
  apply (sam_entry_is_overwritten dadra 6).
  - simpl. tauto.
  - reflexivity.
Defined.
End TemplateClaims.

(** ** Properties of the claims: the fallback round trip *)

Section RoundTrip.
Local Open Scope float_scope.

Lemma closest_taal_registered (cycle_length : Z) :
  exists t l1 l2,
    min_by_key (fun t => Z.abs (matras t - cycle_length)) registry_values = Ok t
    /\ registry_values = l1 ++ t :: l2
    /\ (forall u, In u l1 ->
          (Z.abs (matras t - cycle_length) < Z.abs (matras u - cycle_length))%Z)
    /\ (forall u, In u l2 ->
          (Z.abs (matras t - cycle_length) <= Z.abs (matras u - cycle_length))%Z).
Proof.
  exact (min_by_key_spec (fun t => Z.abs (matras t - cycle_length)) dadra _).
Qed.

(** C2, as the code has it. The fallback computes [cycle_duration]
    from the unrounded tempo; the recomputation from the reported
    fields gives the reported value whenever rounding to one decimal
    leaves the estimated tempo unchanged. *)
Theorem fallback_round_trip_on_one_decimal_tempo
        (beats : list float) (cycle_length : Z) :
  Py.round (estimate_tempo beats) 1 = estimate_tempo beats ->
  exists r t,
    _build_fallback_result beats cycle_length = Ok r
    /\ registry_getitem (taal r) = Ok t
    /\ spec_recompute_cycle_duration (tempo_bpm r) (matras t)
       = cycle_duration r.
Proof.
  intros Hround. unfold _build_fallback_result.
  destruct (closest_taal_registered cycle_length) as (t & l1 & l2 & -> & E & _).
  cbn [bind]. eexists. exists t. split; [reflexivity|]. cbn [taal tempo_bpm cycle_duration].
  split.
  - apply registry_getitem_name. rewrite E. apply in_or_app. right. now left.
  - unfold spec_recompute_cycle_duration. now rewrite Hround.
Qed.

Lemma fallback_round_trip_witness :
  exists r t,
    _build_fallback_result [0; 0.5] 0 = Ok r
    /\ registry_getitem (taal r) = Ok t
    /\ spec_recompute_cycle_duration (tempo_bpm r) (matras t)
       = cycle_duration r.
Proof.
  apply (fallback_round_trip_on_one_decimal_tempo [0; 0.5] 0).
  vm_compute. reflexivity.
Defined.

(** C2, as stated, fails: two beats [0.7] s apart give tempo
    [85.714...], reported as [85.7]; the reported cycle duration of
    Dadra is [4.2], the recomputed one [4.2007]. *)
Lemma fallback_round_trip_fails :
  exists r,
    _build_fallback_result [0; 0.7] 0 = Ok r
    /\ taal r = DADRA
    /\ tempo_bpm r = 85.7
    /\ cycle_duration r = 4.2
    /\ spec_recompute_cycle_duration (tempo_bpm r) (matras dadra) = 4.2007
    /\ (spec_recompute_cycle_duration (tempo_bpm r) (matras dadra)
        =? cycle_duration r) = false.
Proof.
  eexists. split; [vm_compute; reflexivity|].
  repeat split; vm_compute; reflexivity.
Qed.
End RoundTrip.

(** ** The cycle scan *)

Section CycleScan.

Lemma recorded_cycle_lengths_eq (bp : list Z) :
  recorded_cycle_lengths bp =
  finish_scan (fold_left (cycle_scan_step bp) (seq 1 (length bp - 1)) ([], 0)).
Proof.
  unfold recorded_cycle_lengths, finish_scan.
  destruct (fold_left _ _ _) as [cl cm]. reflexivity.
Qed.

(** The indexed loop of the code, started after a prefix [pre] whose
    last seen position is [prev], records what the scan records from
    the same state. *)
Lemma scan_agrees (rest : list Z) :
  forall (pre : list Z) (prev : Z) (acc : list Z) (cm : Z),
    finish_scan
      (fold_left (cycle_scan_step (pre ++ prev :: rest))
                 (seq (S (length pre)) (length rest)) (acc, cm))
    = acc ++ spec_cycle_scan prev cm rest.
Proof.
  induction rest as [|p rest IH]; intros pre prev acc cm.
  - simpl. unfold finish_scan. simpl. destruct (0 <? cm); trivial.
    now rewrite app_nil_r.
  - cbn [length seq fold_left spec_cycle_scan].
    assert (Hp : nth (S (length pre)) (pre ++ prev :: p :: rest) 0 = p).
    { rewrite app_nth2 by lia.
      replace (S (length pre) - length pre)%nat with 1%nat by lia.
      reflexivity. }
    assert (Hprev : nth (S (length pre) - 1) (pre ++ prev :: p :: rest) 0 = prev).
    { rewrite app_nth2 by lia.
      replace (S (length pre) - 1 - length pre)%nat with 0%nat by lia.
      reflexivity. }
    unfold cycle_scan_step at 2. rewrite Hp, Hprev.
    replace (pre ++ prev :: p :: rest) with ((pre ++ [prev]) ++ p :: rest)
      by (rewrite <- app_assoc; reflexivity).
    replace (S (S (length pre))) with (S (length (pre ++ [prev])))
      by (rewrite length_app; simpl; lia).
    destruct (p <=? prev).
    + rewrite IH, <- app_assoc. reflexivity.
    + rewrite IH. reflexivity.
Qed.

Lemma recorded_as_scan (bp : list Z) :
  recorded_cycle_lengths bp = loop_recorded_lengths bp.
Proof.
  rewrite recorded_cycle_lengths_eq. destruct bp as [|p rest].
  - reflexivity.
  - replace (length (p :: rest) - 1)%nat with (length rest) by (simpl; lia).
    exact (scan_agrees rest [] p [] 0).
Qed.

Lemma fold_max_shift (xs : list Z) (a b : Z) :
  fold_left Z.max xs (Z.max a b) = Z.max a (fold_left Z.max xs b).
Proof.
  revert b. induction xs as [|x xs IH]; intros b; simpl; trivial.
  rewrite <- IH. f_equal. lia.
Qed.

Lemma fold_max_ge (xs : list Z) (a : Z) : a <= fold_left Z.max xs a.
Proof.
  revert a. induction xs as [|x xs IH]; intros a; simpl; [lia|].
  specialize (IH (Z.max a x)). lia.
Qed.

(** With no reset the scan only tracks the maximum. *)
Lemma scan_without_reset (rest : list Z) :
  forall prev cm,
    Sorted Z.lt (prev :: rest) ->
    spec_cycle_scan prev cm rest =
    if 0 <? fold_left Z.max rest cm then [fold_left Z.max rest cm + 1] else [].
Proof.
  induction rest as [|p rest IH]; intros prev cm Hs; simpl; trivial.
  inversion Hs as [|? ? Hs' Hhd]; subst.
  inversion Hhd as [|? ? Hlt]; subst.
  destruct (Z.leb_spec p prev) as [Hle|_]; [lia|].
  now apply IH.
Qed.

(** With non-negative positions every recorded length is at least 1. *)
Lemma scan_lengths_positive (rest : list Z) :
  forall prev cm,
    0 <= cm -> Forall (fun p => 0 <= p) rest ->
    Forall (fun n => 1 <= n) (spec_cycle_scan prev cm rest).
Proof.
  induction rest as [|p rest IH]; intros prev cm Hcm Hnn; simpl.
  - destruct (Z.ltb_spec 0 cm); repeat constructor. lia.
  - inversion Hnn as [|? ? Hp Hrest]; subst.
    destruct (p <=? prev).
    + constructor; [lia|]. now apply IH.
    + apply IH; trivial. lia.
Qed.

End CycleScan.

(** ** The vote: [Counter] and [most_common(1)] *)

Section Vote.

Local Abbreviation count L k := (occurrences L k).

Lemma FOP_impl {A : Type} (R R' : A -> A -> Prop) (l : list A) :
  (forall a b, R a b -> R' a b) -> ForallOrdPairs R l -> ForallOrdPairs R' l.
Proof.
  intros HR. induction 1 as [|a l Ha _ IH]; constructor; trivial.
  revert Ha. apply Forall_impl. auto.
Qed.

Lemma FOP_snoc {A : Type} (R : A -> A -> Prop) (l : list A) (x : A) :
  ForallOrdPairs R l -> Forall (fun a => R a x) l ->
  ForallOrdPairs R (l ++ [x]).
Proof.
  induction 1 as [|a l Ha _ IH]; simpl; intros HF.
  - repeat constructor.
  - inversion HF as [|? ? Hax HF']; subst. constructor; auto.
    apply Forall_app. split; [exact Ha|]. now constructor.
Qed.

Lemma FOP_after {A : Type} (R : A -> A -> Prop) (l1 l2 : list A) (a b : A) :
  ForallOrdPairs R (l1 ++ a :: l2) -> In b l2 -> R a b.
Proof.
  induction l1 as [|c l1 IH]; simpl; intros H Hb;
    inversion H as [|? ? Hall Hrest]; subst.
  - exact (proj1 (Forall_forall _ _) Hall b Hb).
  - now apply IH.
Qed.

Lemma in_split_first (a : Z) (L : list Z) :
  In a L -> exists l1 l2, L = l1 ++ a :: l2 /\ ~ In a l1.
Proof.
  induction L as [|y L IH]; simpl; [contradiction|]. intros H.
  destruct (Z.eq_dec y a) as [->|Hne].
  - exists [], L. auto.
  - destruct H as [H|H]; [contradiction|].
    destruct (IH H) as (l1 & l2 & -> & Hni).
    exists (y :: l1), l2. split; [reflexivity|].
    intros [E|E]; auto.
Qed.

Lemma first_before_snoc (a b x : Z) (L : list Z) :
  first_before a b L -> first_before a b (L ++ [x]).
Proof.
  intros (l1 & l2 & -> & Ha & Hb). exists l1, (l2 ++ [x]).
  rewrite <- app_assoc. auto.
Qed.

Lemma first_before_new (a x : Z) (L : list Z) :
  In a L -> ~ In x L -> first_before a x (L ++ [x]).
Proof.
  intros Ha Hx. destruct (in_split_first a L Ha) as (l1 & l2 & -> & Hni).
  exists l1, (l2 ++ [x]). rewrite <- app_assoc. repeat split; trivial.
  intros Hin. apply Hx. apply in_or_app. now left.
Qed.

Lemma count_snoc (L : list Z) (x k : Z) :
  count (L ++ [x]) k = count L k + (if Z.eq_dec x k then 1 else 0).
Proof.
  unfold occurrences. rewrite count_occ_app. simpl.
  destruct (Z.eq_dec x k); lia.
Qed.

Lemma counter_add_spec (x : Z) (c : list (Z * Z)) :
  (~ In x (map fst c) /\ counter_add x c = c ++ [(x, 1)])
  \/ (exists c1 n c2,
         c = c1 ++ (x, n) :: c2 /\ counter_add x c = c1 ++ (x, n + 1) :: c2).
Proof.
  induction c as [|[y n] c IH]; simpl.
  - left. auto.
  - destruct (Z.eqb_spec y x) as [->|Hne].
    + right. exists [], n, c. auto.
    + destruct IH as [[Hni E]|(c1 & m & c2 & E1 & E2)].
      * left. split; [intros [H|H]; auto|]. now rewrite E.
      * right. exists ((y, n) :: c1), m, c2. simpl. rewrite E2.
        split; [f_equal; exact E1 | reflexivity].
Qed.

Lemma counter_inv_nil : counter_inv [] [].
Proof.
  split; simpl; try constructor; try contradiction.
Qed.

Lemma counter_inv_add (L : list Z) (c : list (Z * Z)) (x : Z) :
  counter_inv L c -> counter_inv (L ++ [x]) (counter_add x c).
Proof.
  intros [Hnd Hcnt Hkeys Hord].
  destruct (counter_add_spec x c) as [[Hni ->]|(c1 & n & c2 & -> & ->)].
  - assert (HxL : ~ In x L).
    { intros HxL. destruct (Hkeys x HxL) as [n Hn].
      apply Hni. change x with (fst (x, n)). now apply in_map. }
    split.
    + rewrite map_app. simpl.
      apply NoDup_app; trivial.
      * repeat constructor. intros [].
      * intros k Hk [<-|[]]. contradiction.
    + intros k n Hin. apply in_app_or in Hin.
      destruct Hin as [Hin|[E|[]]].
      * destruct (Hcnt k n Hin) as [-> HkL]. split.
        -- rewrite count_snoc. destruct (Z.eq_dec x k) as [->|]; [contradiction|lia].
        -- apply in_or_app. now left.
      * inversion E; subst k n. split.
        -- rewrite count_snoc. destruct (Z.eq_dec x x) as [_|]; [|congruence].
           unfold occurrences.
           rewrite (proj1 (count_occ_not_In Z.eq_dec L x) HxL). reflexivity.
        -- apply in_or_app. right. now left.
    + intros k Hk. apply in_app_or in Hk. destruct Hk as [Hk|[<-|[]]].
      * destruct (Hkeys k Hk) as [n Hn]. exists n. apply in_or_app. now left.
      * exists 1. apply in_or_app. right. now left.
    + rewrite map_app. simpl. apply FOP_snoc.
      * revert Hord. apply FOP_impl. intros a b. apply first_before_snoc.
      * apply Forall_forall. intros a Ha. apply in_map_iff in Ha.
        destruct Ha as ([k n] & <- & Hin). simpl.
        apply first_before_new; trivial. exact (proj2 (Hcnt k n Hin)).
  - assert (Hkeys_eq : map fst (c1 ++ (x, n + 1) :: c2)
                       = map fst (c1 ++ (x, n) :: c2))
      by (rewrite !map_app; reflexivity).
    assert (Hother : forall k m, In (k, m) c1 \/ In (k, m) c2 -> k <> x).
    { intros k m Hin ->. rewrite map_app in Hnd. simpl in Hnd.
      apply NoDup_remove_2 in Hnd. apply Hnd. apply in_or_app.
      destruct Hin as [Hin|Hin]; [left|right];
        change x with (fst (x, m)); now apply in_map. }
    split.
    + now rewrite Hkeys_eq.
    + intros k m Hin.
      assert (Hcase : (In (k, m) c1 \/ In (k, m) c2) \/ (k, m) = (x, n + 1)).
      { apply in_app_or in Hin. destruct Hin as [Hin|[E|Hin]]; auto. }
      destruct Hcase as [Hin'|E].
      * destruct (Hcnt k m) as [-> HkL].
        { apply in_or_app. destruct Hin' as [H|H]; [left|right; right]; trivial. }
        split; [|apply in_or_app; now left].
        rewrite count_snoc. destruct (Z.eq_dec x k) as [->|]; [|lia].
        now destruct (Hother _ _ Hin').
      * inversion E; subst k m.
        destruct (Hcnt x n) as [En HxL]; [apply in_or_app; right; now left|].
        split; [|apply in_or_app; now left].
        rewrite count_snoc. destruct (Z.eq_dec x x); [lia|congruence].
    + intros k Hk. apply in_app_or in Hk. destruct Hk as [Hk|[<-|[]]].
      * destruct (Hkeys k Hk) as [m Hm]. apply in_app_or in Hm.
        destruct Hm as [Hm|[E|Hm]].
        -- exists m. apply in_or_app. now left.
        -- inversion E; subst. exists (m + 1). apply in_or_app. right. now left.
        -- exists m. apply in_or_app. right. now right.
      * exists (n + 1). apply in_or_app. right. now left.
    + rewrite Hkeys_eq. revert Hord. apply FOP_impl.
      intros a b. apply first_before_snoc.
Qed.

Lemma Counter_inv (L : list Z) : counter_inv L (Counter L).
Proof.
  unfold Counter. induction L as [|x L IH] using rev_ind.
  - exact counter_inv_nil.
  - rewrite fold_left_app. simpl. now apply counter_inv_add.
Qed.

Lemma max_by_count_as_min (first : Z * Z) (others : list (Z * Z)) :
  max_by_count first others =
  fold_left (fun best t => if - snd t <? - snd best then t else best)
            others first.
Proof.
  unfold max_by_count. revert first.
  induction others as [|kv others IH]; intros first; simpl; trivial.
  rewrite IH. f_equal.
  destruct (Z.ltb_spec (snd first) (snd kv));
    destruct (Z.ltb_spec (- snd kv) (- snd first)); trivial; lia.
Qed.

(** The vote returns a recorded value of greatest multiplicity, and of
    those the one encountered first. *)
Lemma vote_spec (L : list Z) :
  L <> [] ->
  exists r,
    most_common_1 (Counter L) = Ok r
    /\ In r L
    /\ (forall x, count L x <= count L r)
    /\ (forall x, In x L -> x <> r -> count L x = count L r ->
                  first_before r x L).
Proof.
  intros Hne. destruct (Counter_inv L) as [Hnd Hcnt Hkeys Hord].
  destruct (Counter L) as [|kv c] eqn:Ec.
  - destruct L as [|x L]; [congruence|].
    destruct (Hkeys x (or_introl eq_refl)) as [n []].
  - destruct (fold_min_spec (fun kv => - snd kv) c [] [] kv)
      as (c1 & c2 & E & Hlt & Hle); try (intros u []).
    simpl in E. rewrite <- max_by_count_as_min in E, Hlt, Hle.
    destruct (max_by_count kv c) as [r nr] eqn:Em. simpl in Hlt, Hle.
    exists r. split; [simpl; now rewrite Em|].
    assert (Hr : In (r, nr) (kv :: c)).
    { rewrite E. apply in_or_app. right. now left. }
    destruct (Hcnt r nr Hr) as [Enr HrL].
    split; [exact HrL|]. split.
    + intros x. destruct (in_dec Z.eq_dec x L) as [HxL|HxL].
      * destruct (Hkeys x HxL) as [n Hn]. destruct (Hcnt x n Hn) as [<- _].
        rewrite <- Enr. rewrite E in Hn. apply in_app_or in Hn.
        destruct Hn as [Hn|[Eq|Hn]].
        -- specialize (Hlt _ Hn). simpl in Hlt. lia.
        -- inversion Eq. lia.
        -- specialize (Hle _ Hn). simpl in Hle. lia.
      * unfold occurrences.
        rewrite (proj1 (count_occ_not_In Z.eq_dec L x) HxL). lia.
    + intros x HxL Hxr Hc.
      destruct (Hkeys x HxL) as [n Hn]. destruct (Hcnt x n Hn) as [En _].
      rewrite E in Hn, Hord. apply in_app_or in Hn.
      rewrite map_app in Hord. simpl in Hord.
      destruct Hn as [Hn|[Eq|Hn]].
      * specialize (Hlt _ Hn). simpl in Hlt. lia.
      * inversion Eq. congruence.
      * apply (FOP_after _ _ _ _ _ Hord).
        change x with (fst (x, n)). now apply in_map.
Qed.

End Vote.

(** ** Properties of the claims: cycle length estimator *)

Section EstimatorClaims.

Lemma len_cons_nonzero {A : Type} (x : A) (xs : list A) :
  (Py.len (x :: xs) =? 0) = false.
Proof. apply Z.eqb_neq. unfold Py.len. simpl. lia. Qed.

Lemma estimate_nonempty (d : float * Z) (ds : list (float * Z)) :
  estimate_cycle_length (d :: ds) =
  match recorded_cycle_lengths (map snd (d :: ds)) with
  | [] => m <- np_max (map snd (d :: ds)) ;; Ok (m + 1)
  | _ => most_common_1 (Counter (recorded_cycle_lengths (map snd (d :: ds))))
  end.
Proof.
  unfold estimate_cycle_length. now rewrite len_cons_nonzero.
Qed.

(** The estimate is the winner of the vote over the recorded lengths. *)
Lemma estimate_is_vote_winner (downbeats : list (float * Z)) :
  recorded_cycle_lengths (map snd downbeats) <> [] ->
  exists r,
    estimate_cycle_length downbeats = Ok r
    /\ vote_winner (recorded_cycle_lengths (map snd downbeats)) r.
Proof.
  intros Hne. destruct downbeats as [|d ds]; [now destruct Hne|].
  rewrite estimate_nonempty.
  destruct (vote_spec _ Hne) as (r & Hr & Hrest).
  exists r. split; [|exact Hrest].
  destruct (recorded_cycle_lengths (map snd (d :: ds))); [congruence|exact Hr].
Qed.

(** A stream without reset gives the greatest position plus one. *)
Lemma estimate_without_reset (downbeats : list (float * Z)) :
  downbeats <> [] -> Sorted Z.lt (map snd downbeats) ->
  exists m, np_max (map snd downbeats) = Ok m
            /\ estimate_cycle_length downbeats = Ok (m + 1).
Proof.
  intros Hne Hs. destruct downbeats as [|d ds]; [now destruct Hne|].
  rewrite estimate_nonempty, recorded_as_scan.
  simpl map in *. cbn [loop_recorded_lengths np_max].
  rewrite (scan_without_reset _ _ 0 Hs).
  eexists. split; [reflexivity|].
  destruct (Z.ltb_spec 0 (fold_left Z.max (map snd ds) 0)) as [Hpos|Hnpos].
  + cbn. f_equal. f_equal.
    destruct (map snd ds) as [|q rest]; simpl in *; [lia|].
    inversion Hs as [|? ? _ Hhd]; subst. inversion Hhd; subst.
    rewrite fold_max_shift in Hpos |- *.
    replace (Z.max (snd d) q) with q by lia.
    pose proof (fold_max_ge rest q). lia.
  + reflexivity.
Qed.

(** C10. On non-negative positions the estimate is at least 1 for a
    non-empty stream, and it is 0 exactly for the empty stream. *)
Theorem cycle_length_estimate_positive (downbeats : list (float * Z)) :
  Forall (fun row => 0 <= snd row) downbeats ->
  exists n,
    estimate_cycle_length downbeats = Ok n
    /\ (downbeats <> [] -> 1 <= n)
    /\ (n = 0 <-> downbeats = []).
Proof.
  intros Hnn. destruct downbeats as [|d ds].
  - exists 0. repeat split; trivial. congruence.
  - assert (Hgoal : exists n, estimate_cycle_length (d :: ds) = Ok n /\ 1 <= n).
    { rewrite estimate_nonempty.
      assert (Hpos : Forall (fun p => 0 <= p) (map snd (d :: ds))).
      { apply Forall_map. exact Hnn. }
      pose proof (recorded_as_scan (map snd (d :: ds))) as Hrec.
      simpl map in *. cbn [loop_recorded_lengths] in Hrec.
      inversion Hpos as [|? ? Hd Hds]; subst.
      pose proof (scan_lengths_positive (map snd ds) (snd d) 0
                    (Z.le_refl 0) Hds) as Hall.
      rewrite <- Hrec in Hall.
      destruct (recorded_cycle_lengths (snd d :: map snd ds)) as [|l ls] eqn:El.
      - simpl. eexists. split; [reflexivity|].
        pose proof (fold_max_ge (map snd ds) (snd d)). lia.
      - destruct (vote_spec (l :: ls)) as (r & Hr & Hin & _); [congruence|].
        exists r. split; [exact Hr|].
        exact (proj1 (Forall_forall _ _) Hall r Hin). }
    destruct Hgoal as (n & Hn & Hge). exists n. split; [exact Hn|].
    split; [intros _; exact Hge|]. split; [lia|congruence].
Qed.

Lemma cycle_length_estimate_positive_witness :
  exists n,
    estimate_cycle_length [(0.5%float, 0); (1%float, 1)] = Ok n
    /\ ([(0.5%float, 0); (1%float, 1)] <> [] -> 1 <= n)
    /\ (n = 0 <-> [(0.5%float, 0); (1%float, 1)] = []).
Proof.
  apply (cycle_length_estimate_positive [(0.5%float, 0); (1%float, 1)]).
  repeat constructor; simpl; lia.
Defined.

End EstimatorClaims.

(** ** Cyclic averaging *)

Section Averaging.
Local Open Scope float_scope.

Lemma skipn_repeat {A : Type} (x : A) (k n : nat) :
  skipn k (repeat x n) = repeat x (n - k).
Proof.
  revert k. induction n as [|n IH]; intros [|k]; simpl; trivial.
Qed.

Lemma list_as_map_nth {A : Type} (d : A) (l : list A) :
  l = map (fun j => nth j l d) (seq 0 (length l)).
Proof.
  induction l as [|x l IH]; simpl; trivial.
  f_equal. rewrite <- seq_shift, map_map. exact IH.
Qed.

Lemma rows_of_map (n c : nat) (xs : list float) :
  rows_of n c xs = map (fun k => firstn c (skipn (k * c) xs)) (seq 0 n).
Proof.
  revert xs. induction n as [|n IH]; intros xs; simpl; trivial.
  f_equal. rewrite IH, <- seq_shift, map_map.
  apply map_ext. intros k. rewrite skipn_skipn. f_equal. f_equal. simpl. lia.
Qed.

Lemma add_rows_length (acc row : list float) :
  length acc = length row -> length (add_rows acc row) = length acc.
Proof.
  revert row. induction acc as [|a acc IH]; intros [|r row]; simpl;
    intros H; try discriminate; trivial.
  f_equal. apply IH. lia.
Qed.

Lemma add_rows_nth (acc row : list float) (j : nat) :
  (j < length acc)%nat -> (j < length row)%nat ->
  nth j (add_rows acc row) 0 = nth j acc 0 + nth j row 0.
Proof.
  revert row j. induction acc as [|a acc IH]; intros [|r row] [|j]; simpl;
    intros H1 H2; try lia; trivial.
  apply IH; lia.
Qed.

(** Adding the rows one after the other sums each column from the left. *)
Lemma fold_add_rows (c : nat) (rows : list (list float)) :
  forall acc,
    length acc = c ->
    Forall (fun r => length r = c) rows ->
    fold_left add_rows rows acc =
    map (fun j => fold_left add (map (fun r => nth j r 0) rows) (nth j acc 0))
        (seq 0 c).
Proof.
  induction rows as [|r rows IH]; intros acc Hacc Hrows; simpl.
  - subst c. apply list_as_map_nth.
  - inversion Hrows as [|? ? Hr Hrows']; subst.
    rewrite IH; trivial.
    + apply map_ext_in. intros j Hj. apply in_seq in Hj.
      rewrite add_rows_nth by lia. reflexivity.
    + rewrite add_rows_length; lia.
Qed.

Lemma nth_chunk (c k j : nat) (xs : list float) :
  (j < c)%nat ->
  nth j (firstn c (skipn (k * c) xs)) 0 = nth (k * c + j) xs 0.
Proof.
  intros Hj. rewrite nth_firstn.
  destruct (Nat.ltb_spec j c) as [_|H]; [|lia].
  now rewrite nth_skipn.
Qed.

Lemma chunk_length (c n k : nat) (xs : list float) :
  length xs = (n * c)%nat -> (k < n)%nat ->
  length (firstn c (skipn (k * c) xs)) = c.
Proof.
  intros Hlen Hk. rewrite length_firstn, length_skipn. nia.
Qed.

Lemma rows_of_length (n c : nat) (xs : list float) :
  length (rows_of n c xs) = n.
Proof.
  revert xs. induction n as [|n IH]; intros xs; simpl; [|rewrite IH]; trivial.
Qed.

(** The rows of a reshaped array, one after the other, are the array. *)
Lemma concat_rows_of (n c : nat) (xs : list float) :
  length xs = (n * c)%nat -> concat (rows_of n c xs) = xs.
Proof.
  revert xs. induction n as [|n IH]; intros xs Hlen; simpl.
  - destruct xs; [trivial|discriminate].
  - rewrite IH; [apply firstn_skipn|]. rewrite length_skipn. simpl in Hlen. lia.
Qed.

(** The column means of the reshaped array, position by position. *)
Lemma mean_of_rows (c n : nat) (xs : list float) :
  length xs = (n * c)%nat ->
  np_mean_axis0 (rows_of n c xs) (Z.of_nat c) =
  map (fun j =>
         sum_across_cycles (Z.of_nat c)
                           (map (fun k => nth (k * c + j) xs 0) (seq 0 n))
         / Py.float_of_int (Z.of_nat n))
      (seq 0 c).
Proof.
  intros Hlen.
  unfold np_mean_axis0, np_add_reduce_axis0, sum_across_cycles, float_sum.
  unfold Py.len. rewrite rows_of_length.
  destruct (Z.eqb_spec (Z.of_nat c) 1) as [E1|_].
  - assert (c = 1%nat) by lia. subst c.
    rewrite concat_rows_of by exact Hlen. cbn [seq map].
    do 4 f_equal. rewrite (list_as_map_nth 0 xs) at 1.
    replace (length xs) with n by lia.
    apply map_ext. intros k. f_equal. lia.
  - rewrite Nat2Z.id, rows_of_map.
    rewrite (fold_add_rows c).
    + rewrite map_map.
      apply map_ext_in. intros j Hj. apply in_seq in Hj.
      rewrite nth_repeat_lt by lia. rewrite map_map.
      f_equal. f_equal. apply map_ext. intros k. apply nth_chunk. lia.
    + apply repeat_length.
    + apply Forall_forall. intros r Hr. apply in_map_iff in Hr.
      destruct Hr as (k & <- & Hk). apply in_seq in Hk.
      apply (chunk_length c n); trivial. lia.
Qed.

(** Two sums over the same values that start from the same value, or
    from [-0.0] and [0.0], agree once they are added onto [0.0]. *)
Lemma sum_start_sign (xs : list float) :
  forall a b : float,
    a = b \/ (Prim2SF a = S754_zero true /\ Prim2SF b = S754_zero false) ->
    0 + fold_left add xs a = 0 + fold_left add xs b.
Proof.
  induction xs as [|x xs IH]; intros a b H; simpl.
  - destruct H as [->|[Ha Hb]]; [reflexivity|].
    apply Prim2SF_inj. rewrite !add_spec, Ha, Hb. reflexivity.
  - apply IH. destruct H as [->|[Ha Hb]]; [now left|].
    destruct (Prim2SF x) as [s|s| |s m e] eqn:Ex.
    + destruct s.
      * right. rewrite !add_spec, Ha, Hb, Ex. split; reflexivity.
      * left. apply Prim2SF_inj. rewrite !add_spec, Ha, Hb, Ex. reflexivity.
    + left. apply Prim2SF_inj. rewrite !add_spec, Ha, Hb, Ex. reflexivity.
    + left. apply Prim2SF_inj. rewrite !add_spec, Ha, Hb, Ex. reflexivity.
    + left. apply Prim2SF_inj. rewrite !add_spec, Ha, Hb, Ex. reflexivity.
Qed.

Lemma short_sum_start (xs : list float) :
  0 + fold_left add xs (-0) = 0 + fold_left add xs 0.
Proof.
  apply sum_start_sign. right. split; reflexivity.
Qed.

(** The splitting of the pairwise sum never runs out of fuel: any fuel
    from the length of the run on gives the same sum. *)
Lemma pairwise_sum_fuel (f1 : nat) :
  forall (f2 : nat) (xs : list float),
    (length xs <= f1)%nat -> (length xs <= f2)%nat ->
    pairwise_sum f1 xs = pairwise_sum f2 xs.
Proof.
  induction f1 as [|f1 IH]; intros f2 xs H1 H2.
  - destruct xs; [|simpl in H1; lia]. destruct f2; reflexivity.
  - destruct f2 as [|f2].
    + destruct xs; [reflexivity|simpl in H2; lia].
    + cbn [pairwise_sum].
      destruct (Nat.ltb_spec (length xs) 8) as [|H8]; [reflexivity|].
      destruct (Nat.leb_spec (length xs) 128) as [|H128]; [reflexivity|].
      assert (Hhalf : (length xs / 2 < length xs)%nat)
        by (apply Nat.div_lt; lia).
      assert (Hmod : ((length xs / 2) mod 8 < 8)%nat)
        by (apply Nat.mod_upper_bound; lia).
      assert (Hbig : (64 <= length xs / 2)%nat)
        by (apply Nat.div_le_lower_bound; lia).
      f_equal; apply IH; rewrite ?length_firstn, ?length_skipn; lia.
Qed.

End Averaging.

(** ** Properties of the claims: cyclic averaging *)

Section AveragingClaims.
Local Open Scope float_scope.

Lemma spec_cyclic_average_length (strengths : list float) (cycle_length : Z) :
  (0 < cycle_length)%Z ->
  Py.len (spec_cyclic_average strengths cycle_length) = cycle_length.
Proof.
  intros Hpos. unfold spec_cyclic_average, Py.len.
  destruct (Z.eqb_spec (Z.of_nat (length strengths) / cycle_length) 0) as [E|E].
  - apply Z.div_small_iff in E; [|lia].
    rewrite length_app, repeat_length. lia.
  - rewrite length_map, length_seq. lia.
Qed.

(** The code's reshape-and-mean against the specification's per-position
    mean. *)
Lemma cyclic_average_refines (strengths : list float) (cycle_length : Z) :
  (0 < cycle_length)%Z ->
  _average_cyclic_pattern strengths cycle_length
  = Ok (spec_cyclic_average strengths cycle_length)
  /\ Py.len (spec_cyclic_average strengths cycle_length) = cycle_length.
Proof.
  intros Hpos. split; [|now apply spec_cyclic_average_length].
  unfold _average_cyclic_pattern, spec_cyclic_average, Py.np_zeros, Py.np_full.
  destruct (Z.ltb_spec cycle_length 0) as [?|_]; [lia|].
  destruct (Z.leb_spec cycle_length 0) as [?|_]; [lia|].
  destruct strengths as [|s0 rest].
  - simpl. now rewrite Nat.sub_0_r.
  - rewrite len_cons_nonzero. cbn [orb]. set (strengths := s0 :: rest).
    set (n := (Py.len strengths / cycle_length)%Z).
    destruct (Z.eqb_spec n 0) as [E|E].
    + cbn [bind]. now rewrite skipn_repeat.
    + assert (Hn : (0 < n)%Z).
      { pose proof (Z.div_pos (Py.len strengths) cycle_length) as H.
        unfold Py.len in *. subst n. lia. }
      assert (Hle : (n * cycle_length <= Py.len strengths)%Z).
      { subst n. rewrite Z.mul_comm. apply Z.mul_div_le. lia. }
      set (c := Z.to_nat cycle_length). set (m := Z.to_nat n).
      assert (Hmc : Z.to_nat (n * cycle_length) = (m * c)%nat).
      { subst m c. apply Z2Nat.inj_mul; lia. }
      assert (Hlen : length (firstn (Z.to_nat (n * cycle_length)) strengths)
                     = (m * c)%nat).
      { rewrite length_firstn, Hmc. unfold Py.len in Hle. lia. }
      unfold reshape.
      replace (Py.len (firstn (Z.to_nat (n * cycle_length)) strengths))
        with (n * cycle_length)%Z by (unfold Py.len; rewrite Hlen; lia).
      rewrite Z.eqb_refl. cbn [bind]. f_equal.
      pose proof (mean_of_rows c m _ Hlen) as Hmean.
      replace (Z.of_nat c) with cycle_length in Hmean by (subst c; lia).
      replace (Z.of_nat m) with n in Hmean by (subst m; lia).
      etransitivity; [exact Hmean|].
      apply map_ext_in. intros j Hj. apply in_seq in Hj.
      f_equal. f_equal. apply map_ext_in. intros k Hk. apply in_seq in Hk.
      rewrite nth_firstn, Hmc.
      destruct (Nat.ltb_spec (k * c + j) (m * c)) as [_|H]; [reflexivity|nia].
Qed.



End AveragingClaims.

(** ** Totality of the template builder and of cyclic averaging *)

Lemma template_total (t : TaalDefinition) (cycle_length : Z) :
  In t registry_values ->
  0 < cycle_length ->
  exists pattern,
    _build_expected_accent_pattern (name t) cycle_length = Ok pattern
    /\ Py.len pattern = cycle_length.
Proof.
  intros Hin Hpos.
  destruct (registered_template t cycle_length Hin Hpos) as (p & Hrun & Hlen & _).
  eauto.
Qed.

Lemma cyclic_average_total (strengths : list float) (cycle_length : Z) :
  0 < cycle_length ->
  exists avg,
    _average_cyclic_pattern strengths cycle_length = Ok avg
    /\ Py.len avg = cycle_length.
Proof.
  intros Hpos.
  destruct (cyclic_average_refines strengths cycle_length Hpos) as [Hrun Hlen].
  eauto.
Qed.

(** ** The descending stable sort *)

Section Sorting.
Local Open Scope float_scope.

Lemma insert_desc_perm (x : TaalName * float) (l : list (TaalName * float)) :
  Permutation (insert_desc x l) (x :: l).
Proof.
  induction l as [|y l IH]; simpl; [reflexivity|].
  destruct (snd x <? snd y); [|reflexivity].
  rewrite IH. apply perm_swap.
Qed.

Lemma sorted_desc_perm (l : list (TaalName * float)) :
  Permutation (sorted_desc l) l.
Proof.
  induction l as [|x l IH]; simpl; [reflexivity|].
  rewrite insert_desc_perm. now constructor.
Qed.

Lemma sorted_desc_In (l : list (TaalName * float)) (r : TaalName * float) :
  In r (sorted_desc l) <-> In r l.
Proof.
  split; apply Permutation_in;
    [apply sorted_desc_perm | symmetry; apply sorted_desc_perm].
Qed.

Lemma sorted_desc_Forall (P : TaalName * float -> Prop)
      (l : list (TaalName * float)) :
  Forall P l -> Forall P (sorted_desc l).
Proof.
  intros H. apply Forall_forall. intros r Hr.
  apply (proj1 (sorted_desc_In _ _)) in Hr.
  exact (proj1 (Forall_forall _ _) H r Hr).
Qed.

Lemma sorted_desc_names_NoDup (l : list (TaalName * float)) :
  NoDup (map fst l) -> NoDup (map fst (sorted_desc l)).
Proof.
  apply Permutation_NoDup. apply Permutation_map. symmetry.
  apply sorted_desc_perm.
Qed.

Lemma HdRel_insert_desc (y x : TaalName * float) (l : list (TaalName * float)) :
  HdRel conf_ge y l -> conf_ge y x -> HdRel conf_ge y (insert_desc x l).
Proof.
  intros Hl Hx. destruct l as [|z l]; simpl; [now constructor|].
  destruct (snd x <? snd z); constructor; trivial.
  now inversion Hl.
Qed.

Lemma insert_desc_sorted (x : TaalName * float) (l : list (TaalName * float)) :
  not_nan (snd x) ->
  Forall (fun r => not_nan (snd r)) l ->
  Sorted conf_ge l -> Sorted conf_ge (insert_desc x l).
Proof.
  intros Hx. induction l as [|y l IH]; intros Hnn Hs; simpl.
  - repeat constructor.
  - inversion Hnn as [|? ? Hy Hnn']; subst.
    inversion Hs as [|? ? Hs' Hhd]; subst.
    destruct (snd x <? snd y) eqn:E.
    + constructor; [now apply IH|].
      apply HdRel_insert_desc; trivial. unfold conf_ge. now apply ltb_leb.
    + constructor; trivial. constructor. unfold conf_ge.
      now apply nltb_leb.
Qed.

(** On comparable keys the sort returns a non-increasing list. *)
Lemma sorted_desc_sorted (l : list (TaalName * float)) :
  Forall (fun r => not_nan (snd r)) l -> Sorted conf_ge (sorted_desc l).
Proof.
  induction 1 as [|x l Hx Hl IH]; simpl; [constructor|].
  apply insert_desc_sorted; trivial. now apply sorted_desc_Forall.
Qed.

End Sorting.

(** ** The pattern matcher *)

Section Matcher.
Local Open Scope float_scope.

Lemma normalize_length (arr : list float) :
  length (_normalize arr) = length arr.
Proof.
  unfold _normalize. destruct (np_linalg_norm arr =? 0); trivial.
  apply length_map.
Qed.

Lemma np_dot_same_length (x y : list float) :
  length x = length y -> exists d, np_dot x y = Ok d.
Proof.
  intros H. unfold np_dot, Py.len. rewrite H, Z.eqb_refl. eauto.
Qed.

Lemma registered_matras_positive (t : TaalDefinition) :
  In t registry_values -> (0 < matras t)%Z.
Proof.
  intros H. destruct (registered_well_formed t H) as (Hs & _). lia.
Qed.

Lemma NoDup_map_filter {A B : Type} (g : A -> B) (f : A -> bool) (l : list A) :
  NoDup (map g l) -> NoDup (map g (filter f l)).
Proof.
  induction l as [|a l IH]; simpl; intros H; trivial.
  inversion H as [|? ? Hni Hnd]; subst.
  destruct (f a); simpl; auto. constructor; auto.
  intros Hin. apply Hni. apply in_map_iff in Hin.
  destruct Hin as (b & Eb & Hb). apply filter_In in Hb.
  apply in_map_iff. exists b. tauto.
Qed.

Lemma registry_names_NoDup : NoDup (map name registry_values).
Proof.
  simpl. repeat constructor; simpl; intuition discriminate.
Qed.

(** One pass of the matcher's loop over candidates of the given length:
    it never raises, appends one entry per candidate in order, and every
    confidence is clamped. *)
Lemma matcher_loop (observed : list float) (cycle_length : Z)
      (candidates : list TaalDefinition) :
  (forall t, In t candidates ->
             In t registry_values /\ matras t = cycle_length) ->
  forall acc,
  exists res,
    for_each candidates acc
      (fun taal_def results =>
         expected <- _build_expected_accent_pattern (name taal_def) cycle_length ;;
         avg_pattern <- _average_cyclic_pattern observed cycle_length ;;
         let obs_norm := _normalize avg_pattern in
         let exp_norm := _normalize expected in
         similarity <- np_dot obs_norm exp_norm ;;
         let confidence := Py.max 0.0 (Py.min 1.0 similarity) in
         Ok (results ++ [(name taal_def, confidence)])) = Ok (acc ++ res)
    /\ map fst res = map name candidates
    /\ Forall (fun r => in_unit_interval (snd r)) res.
Proof.
  induction candidates as [|t cands IH]; intros Hc acc.
  - exists []. simpl. rewrite app_nil_r. auto.
  - destruct (Hc t (or_introl eq_refl)) as [Hreg Hm].
    assert (Hpos : (0 < cycle_length)%Z)
      by (rewrite <- Hm; now apply registered_matras_positive).
    destruct (template_total t cycle_length Hreg Hpos)
      as (expected & Hexp & Hlen_exp).
    destruct (cyclic_average_total observed cycle_length Hpos)
      as (avg & Havg & Hlen_avg).
    destruct (np_dot_same_length (_normalize avg) (_normalize expected))
      as (d & Hd).
    { rewrite !normalize_length. unfold Py.len in *. lia. }
    rewrite for_each_step with (s' := acc ++ [(name t, Py.max 0.0 (Py.min 1.0 d))])
      by (cbv beta; rewrite Hexp; cbn [bind]; rewrite Havg; cbn [bind];
          cbv zeta; rewrite Hd; reflexivity).
    destruct (IH (fun u Hu => Hc u (or_intror Hu))
                 (acc ++ [(name t, Py.max 0.0 (Py.min 1.0 d))]))
      as (res & Hrun & Hnames & Hunit).
    exists ((name t, Py.max 0.0 (Py.min 1.0 d)) :: res).
    split; [rewrite Hrun, <- app_assoc; reflexivity|].
    split; [simpl; now rewrite Hnames|].
    constructor; trivial. apply clamp_in_unit_interval.
Qed.

(** The matcher never raises: it returns the sorted list of one clamped
    confidence per registered taal of the given length. *)
Lemma matcher_spec (observed : list float) (cycle_length : Z) :
  exists res,
    match_accent_pattern observed cycle_length = Ok (sorted_desc res)
    /\ map fst res = map name (get_taals_by_matras cycle_length)
    /\ Forall (fun r => in_unit_interval (snd r)) res.
Proof.
  unfold match_accent_pattern.
  destruct (matcher_loop observed cycle_length
              (get_taals_by_matras cycle_length)) with (acc := @nil (TaalName * float))
    as (res & Hrun & Hnames & Hunit).
  { intros t Ht. now apply get_taals_by_matras_In. }
  destruct (get_taals_by_matras cycle_length) as [|t cands] eqn:E.
  - exists []. simpl. auto.
  - exists res. cbv beta iota zeta in Hrun |- *. rewrite Hrun.
    cbn [bind app]. auto.
Qed.

End Matcher.

(** ** Rankings of the matcher and of the retry controller *)

Section Rankings.
Local Open Scope float_scope.

Lemma registered_name_inj (u v : TaalDefinition) :
  In u registry_values -> In v registry_values -> name u = name v -> u = v.
Proof.
  intros Hu Hv E. apply registry_getitem_name in Hu, Hv.
  rewrite E in Hu. congruence.
Qed.

(** What a ranking of the matcher holds. *)
Lemma matcher_entries (observed : list float) (cycle_length : Z)
      (rankings : list (TaalName * float)) :
  match_accent_pattern observed cycle_length = Ok rankings ->
  NoDup (map fst rankings)
  /\ Sorted conf_ge rankings
  /\ forall t c, In (t, c) rankings ->
       in_unit_interval c
       /\ exists u, In u registry_values /\ name u = t
                    /\ matras u = cycle_length.
Proof.
  destruct (matcher_spec observed cycle_length) as (res & -> & Hnames & Hunit).
  intros E. inversion E; subst rankings. clear E. split; [|split].
  - apply sorted_desc_names_NoDup. rewrite Hnames.
    apply NoDup_map_filter. exact registry_names_NoDup.
  - apply sorted_desc_sorted. revert Hunit. apply Forall_impl.
    intros r. apply in_unit_interval_not_nan.
  - intros t c Hin. apply (proj1 (sorted_desc_In _ _)) in Hin. split.
    + exact (proj1 (Forall_forall _ _) Hunit (t, c) Hin).
    + assert (Ht : In t (map fst res))
        by (change t with (fst (t, c)); now apply in_map).
      rewrite Hnames in Ht. apply in_map_iff in Ht.
      destruct Ht as (u & Eu & Hu). apply get_taals_by_matras_In in Hu.
      exists u. tauto.
Qed.

Lemma matcher_total (observed : list float) (cycle_length : Z) :
  exists rankings, match_accent_pattern observed cycle_length = Ok rankings.
Proof.
  destruct (matcher_spec observed cycle_length) as (res & H & _). eauto.
Qed.

(** Without a registered taal of that length, in particular for a
    non-positive length, the ranking is empty. *)
Lemma matcher_nonpositive (observed : list float) (cycle_length : Z) :
  (cycle_length <= 0)%Z -> match_accent_pattern observed cycle_length = Ok [].
Proof.
  intros Hle. unfold match_accent_pattern.
  destruct (get_taals_by_matras cycle_length) as [|t cands] eqn:E; trivial.
  assert (Ht : In t (get_taals_by_matras cycle_length)) by (rewrite E; now left).
  apply get_taals_by_matras_In in Ht. destruct Ht as [Hreg Hm].
  apply registered_matras_positive in Hreg. lia.
Qed.

Lemma retry_attempt_entries (strengths : list float) (nearby : Z)
      (penalized : list (TaalName * float)) :
  retry_attempt strengths nearby penalized ->
  NoDup (map fst penalized)
  /\ forall t c, In (t, c) penalized ->
       (0 < nearby)%Z
       /\ not_nan c
       /\ exists u rankings c0,
            In u registry_values /\ name u = t /\ matras u = nearby
            /\ match_accent_pattern strengths (matras u) = Ok rankings
            /\ In (t, c0) rankings /\ c = c0 * 0.8.
Proof.
  unfold retry_attempt. destruct (Z.ltb_spec 0 nearby) as [Hpos|Hnpos].
  - intros (rankings & Hrun & ->).
    destruct (matcher_entries _ _ _ Hrun) as (Hnd & _ & Hent). split.
    + rewrite map_map. exact Hnd.
    + intros t c Hin. apply in_map_iff in Hin.
      destruct Hin as ([t0 c0] & E & Hin0). inversion E; subst t c. clear E.
      destruct (Hent t0 c0 Hin0) as (Hunit & u & Hu & Hname & Hm).
      split; [exact Hpos|]. split; [now apply penalty_not_nan|].
      exists u, rankings, c0. rewrite Hm. tauto.
  - intros ->. split; [constructor|]. intros t c [].
Qed.

Lemma retry_step (strengths : list float) (nearby : Z)
      (all_rankings : list (TaalName * float)) :
  exists penalized,
    retry_attempt strengths nearby penalized
    /\ (if (0 <? nearby)%Z then
          rankings <- match_accent_pattern strengths nearby ;;
          Ok (all_rankings ++ map penalize rankings)
        else Ok all_rankings) = Ok (all_rankings ++ penalized).
Proof.
  unfold retry_attempt. destruct (0 <? nearby)%Z.
  - destruct (matcher_total strengths nearby) as (r & Hr).
    exists (map penalize r). rewrite Hr. split; [eauto|reflexivity].
  - exists []. now rewrite app_nil_r.
Qed.

(** The retry controller never raises; it sorts the concatenation of the
    four attempts, taken at offsets -1, +1, -2, +2 in this order. *)
Lemma retry_spec (strengths : list float) (cycle_length : Z) :
  exists p1 p2 p3 p4,
    retry_attempt strengths (cycle_length + -1) p1
    /\ retry_attempt strengths (cycle_length + 1) p2
    /\ retry_attempt strengths (cycle_length + -2) p3
    /\ retry_attempt strengths (cycle_length + 2) p4
    /\ _try_nearby_cycle_lengths strengths cycle_length
       = Ok (sorted_desc (p1 ++ p2 ++ p3 ++ p4)).
Proof.
  unfold _try_nearby_cycle_lengths.
  destruct (retry_step strengths (cycle_length + -1) []) as (p1 & H1 & E1).
  destruct (retry_step strengths (cycle_length + 1) ([] ++ p1)) as (p2 & H2 & E2).
  destruct (retry_step strengths (cycle_length + -2) (([] ++ p1) ++ p2))
    as (p3 & H3 & E3).
  destruct (retry_step strengths (cycle_length + 2) ((([] ++ p1) ++ p2) ++ p3))
    as (p4 & H4 & E4).
  exists p1, p2, p3, p4. repeat (split; [assumption|]).
  rewrite (for_each_step _ _ _ _ _ E1), (for_each_step _ _ _ _ _ E2),
    (for_each_step _ _ _ _ _ E3), (for_each_step _ _ _ _ _ E4).
  cbn [for_each bind]. rewrite <- !app_assoc. reflexivity.
Qed.

Lemma retry_names_disjoint (strengths : list float) (n m : Z)
      (p q : list (TaalName * float)) :
  n <> m ->
  retry_attempt strengths n p -> retry_attempt strengths m q ->
  forall t, In t (map fst p) -> ~ In t (map fst q).
Proof.
  intros Hnm Hp Hq t Htp Htq.
  apply retry_attempt_entries in Hp, Hq.
  destruct Hp as [_ Hp], Hq as [_ Hq].
  apply in_map_iff in Htp, Htq.
  destruct Htp as ([t1 c1] & E1 & Hin1), Htq as ([t2 c2] & E2 & Hin2).
  simpl in E1, E2. subst t1 t2.
  destruct (Hp t c1 Hin1) as (_ & _ & u & _ & _ & Hu & Hnu & Hmu & _).
  destruct (Hq t c2 Hin2) as (_ & _ & v & _ & _ & Hv & Hnv & Hmv & _).
  assert (u = v) by (apply registered_name_inj; congruence).
  congruence.
Qed.

(** What the retry controller returns. *)
Lemma retry_entries (strengths : list float) (cycle_length : Z) :
  exists merged,
    _try_nearby_cycle_lengths strengths cycle_length = Ok merged
    /\ NoDup (map fst merged)
    /\ Sorted conf_ge merged
    /\ forall t c, In (t, c) merged ->
         exists u rankings c0,
           registry_getitem t = Ok u
           /\ (0 < matras u)%Z
           /\ In (matras u - cycle_length)%Z [-1; 1; -2; 2]%Z
           /\ match_accent_pattern strengths (matras u) = Ok rankings
           /\ In (t, c0) rankings /\ c = c0 * 0.8.
Proof.
  destruct (retry_spec strengths cycle_length)
    as (p1 & p2 & p3 & p4 & H1 & H2 & H3 & H4 & Hrun).
  exists (sorted_desc (p1 ++ p2 ++ p3 ++ p4)). split; [exact Hrun|].
  pose proof (retry_attempt_entries _ _ _ H1) as [N1 E1].
  pose proof (retry_attempt_entries _ _ _ H2) as [N2 E2].
  pose proof (retry_attempt_entries _ _ _ H3) as [N3 E3].
  pose proof (retry_attempt_entries _ _ _ H4) as [N4 E4].
  assert (Hall : forall t c, In (t, c) (p1 ++ p2 ++ p3 ++ p4) ->
            not_nan c /\
            exists u rankings c0,
              registry_getitem t = Ok u
              /\ (0 < matras u)%Z
              /\ In (matras u - cycle_length)%Z [-1; 1; -2; 2]%Z
              /\ match_accent_pattern strengths (matras u) = Ok rankings
              /\ In (t, c0) rankings /\ c = c0 * 0.8).
  { intros t c Hin.
    assert (Hcase : In (t, c) p1 \/ In (t, c) p2 \/ In (t, c) p3 \/ In (t, c) p4).
    { repeat (apply in_app_or in Hin; destruct Hin as [Hin|Hin]; auto). }
    destruct Hcase as [Hin'|[Hin'|[Hin'|Hin']]];
      [destruct (E1 t c Hin') as (Hpos & Hnn & u & r & c0 & Hu & Hn & Hm & Hr & Hin0 & Ec)
      |destruct (E2 t c Hin') as (Hpos & Hnn & u & r & c0 & Hu & Hn & Hm & Hr & Hin0 & Ec)
      |destruct (E3 t c Hin') as (Hpos & Hnn & u & r & c0 & Hu & Hn & Hm & Hr & Hin0 & Ec)
      |destruct (E4 t c Hin') as (Hpos & Hnn & u & r & c0 & Hu & Hn & Hm & Hr & Hin0 & Ec)];
      (split; [exact Hnn|]); exists u, r, c0;
      (split; [rewrite <- Hn; now apply registry_getitem_name|]);
      (split; [lia|]); (split; [|tauto]);
      replace (matras u - cycle_length)%Z with
        ((cycle_length + (matras u - cycle_length)) - cycle_length)%Z by lia;
      rewrite Hm; simpl.
    - left. lia.
    - right. left. lia.
    - right. right. left. lia.
    - right. right. right. left. lia. }
  split; [|split].
  - apply sorted_desc_names_NoDup. rewrite !map_app.
    apply NoDup_app; trivial.
    + apply NoDup_app; trivial.
      * apply NoDup_app; trivial.
        refine (retry_names_disjoint strengths _ _ _ _ _ H3 H4); lia.
      * intros t Ht Hin. apply in_app_or in Hin. destruct Hin as [Hin|Hin].
        -- refine (retry_names_disjoint strengths _ _ _ _ _ H2 H3 t Ht Hin); lia.
        -- refine (retry_names_disjoint strengths _ _ _ _ _ H2 H4 t Ht Hin); lia.
    + intros t Ht Hin. apply in_app_or in Hin. destruct Hin as [Hin|Hin].
      * refine (retry_names_disjoint strengths _ _ _ _ _ H1 H2 t Ht Hin); lia.
      * apply in_app_or in Hin. destruct Hin as [Hin|Hin].
        -- refine (retry_names_disjoint strengths _ _ _ _ _ H1 H3 t Ht Hin); lia.
        -- refine (retry_names_disjoint strengths _ _ _ _ _ H1 H4 t Ht Hin); lia.
  - apply sorted_desc_sorted. apply Forall_forall. intros [t c] Hin.
    exact (proj1 (Hall t c Hin)).
  - intros t c Hin. apply (proj1 (sorted_desc_In _ _)) in Hin.
    exact (proj2 (Hall t c Hin)).
Qed.

End Rankings.

(** ** The beat annotator *)

Section Annotator.
Local Open Scope float_scope.

Lemma beat_infos_loop (t : TaalDefinition) (strengths beats : list float) :
  matras t <> 0%Z ->
  forall acc i, (0 <= i)%Z ->
  for_each beats (acc, i)
    (fun beat_time st =>
       let '(beat_infos, i) := st in
       if (matras t =? 0)%Z then Raise ZeroDivisionError
       else
         let pos := (i mod matras t)%Z in
         strength <-
           (if (i <? Py.len strengths)%Z
            then s <- Py.getitem 0 strengths i ;; Ok (Py.round s 4)
            else Ok 0.0) ;;
         Ok (beat_infos ++
               [ {| time := Py.round beat_time 4;
                    beat_position := pos;
                    is_sam := (pos =? sam_position t)%Z;
                    is_khali := existsb (Z.eqb pos) (khali_positions t);
                    strength := strength |} ],
             (i + 1)%Z))
  = Ok (acc ++ spec_beat_infos t strengths i beats, (i + Py.len beats)%Z).
Proof.
  intros Hm. induction beats as [|b bs IH]; intros acc i Hi.
  - simpl. rewrite app_nil_r. unfold Py.len. simpl. now rewrite Z.add_0_r.
  - rewrite for_each_step
      with (s' := (acc ++ [spec_beat_info t strengths i b], (i + 1)%Z)).
    + rewrite IH by lia. rewrite <- app_assoc. simpl.
      f_equal. f_equal. unfold Py.len. simpl length. lia.
    + cbv beta iota zeta. destruct (Z.eqb_spec (matras t) 0) as [?|_]; [contradiction|].
      unfold spec_beat_info.
      destruct (Z.ltb_spec i (Py.len strengths)) as [Hlt|Hge].
      * rewrite getitem_in_range by lia. reflexivity.
      * reflexivity.
Qed.

Lemma build_beat_infos_spec (t : TaalDefinition) (strengths beats : list float) :
  matras t <> 0%Z ->
  _build_beat_infos beats strengths t = Ok (spec_beat_infos t strengths 0 beats).
Proof.
  intros Hm. unfold _build_beat_infos.
  pose proof (beat_infos_loop t strengths beats Hm [] 0%Z (Z.le_refl 0)) as H.
  match goal with
  | |- bind ?m _ = _ =>
      replace m with (Ok ([] ++ spec_beat_infos t strengths 0 beats,
                          (0 + Py.len beats)%Z))
        by (symmetry; exact H)
  end.
  reflexivity.
Qed.

Lemma spec_beat_infos_length (t : TaalDefinition) (strengths beats : list float)
      (i : Z) :
  length (spec_beat_infos t strengths i beats) = length beats.
Proof.
  revert i. induction beats as [|b bs IH]; intros i; simpl; auto.
Qed.

Lemma spec_beat_infos_nth (t : TaalDefinition) (strengths beats : list float) :
  forall (i : Z) (k : nat) (info : BeatInfo),
    nth_error (spec_beat_infos t strengths i beats) k = Some info ->
    exists b, nth_error beats k = Some b
              /\ info = spec_beat_info t strengths (i + Z.of_nat k) b.
Proof.
  induction beats as [|b bs IH]; intros i k info; simpl.
  - destruct k; discriminate.
  - destruct k as [|k]; simpl.
    + intros E. inversion E. exists b. now rewrite Z.add_0_r.
    + intros E. destruct (IH _ _ _ E) as (b' & Hb & ->). exists b'.
      split; trivial. f_equal. lia.
Qed.

End Annotator.

(** ** The pipeline *)

Section Pipeline.
Local Open Scope float_scope.

Lemma estimate_total (downbeats : list (float * Z)) :
  exists cycle_length, estimate_cycle_length downbeats = Ok cycle_length.
Proof.
  destruct downbeats as [|d ds]; [now exists 0%Z|].
  rewrite estimate_nonempty.
  destruct (recorded_cycle_lengths (map snd (d :: ds))) as [|l ls] eqn:E.
  - simpl. eauto.
  - destruct (vote_spec (l :: ls)) as (r & Hr & _); [congruence|]. eauto.
Qed.

(** The terminal fallback, field by field. *)
Lemma fallback_spec (beats_in : list float) (cycle_length : Z) :
  exists res u l1 l2,
    _build_fallback_result beats_in cycle_length = Ok res
    /\ registry_getitem (taal res) = Ok u
    /\ registry_values = l1 ++ u :: l2
    /\ (forall v, In v l1 ->
          (Z.abs (matras u - cycle_length) < Z.abs (matras v - cycle_length))%Z)
    /\ (forall v, In v l2 ->
          (Z.abs (matras u - cycle_length) <= Z.abs (matras v - cycle_length))%Z)
    /\ confidence res = 0.1
    /\ beats res = []
    /\ alternative_taals res = [].
Proof.
  unfold _build_fallback_result.
  destruct (closest_taal_registered cycle_length) as (u & l1 & l2 & -> & E & Hl & Hr).
  cbn [bind]. eexists. exists u, l1, l2. split; [reflexivity|].
  cbn [taal confidence beats alternative_taals].
  split; [|tauto].
  apply registry_getitem_name. rewrite E. apply in_or_app. right. now left.
Qed.

(** The two ways a detection result comes about. *)
Lemma detect_cases (beats_in : list float) (downbeats : list (float * Z))
      (strengths : list float) :
  exists cycle_length res,
    estimate_cycle_length downbeats = Ok cycle_length
    /\ detect_taal beats_in downbeats strengths = Ok res
    /\ ((match_accent_pattern strengths cycle_length = Ok []
         /\ _try_nearby_cycle_lengths strengths cycle_length = Ok []
         /\ _build_fallback_result beats_in cycle_length = Ok res)
        \/ (exists u,
              NoDup (map fst ((taal res, confidence res) :: alternative_taals res))
              /\ Sorted conf_ge ((taal res, confidence res) :: alternative_taals res)
              /\ registry_getitem (taal res) = Ok u
              /\ beats res = spec_beat_infos u strengths 0 beats_in)).
Proof.
  destruct (estimate_total downbeats) as (cl & Hcl).
  exists cl. unfold detect_taal. rewrite Hcl. cbn [bind].
  destruct (matcher_total strengths cl) as (r0 & Hr0).
  pose proof (matcher_entries _ _ _ Hr0) as (Hnd0 & Hs0 & _).
  destruct (retry_entries strengths cl) as (r1 & Hr1 & Hnd1 & Hs1 & _).
  rewrite Hr0. cbn [bind].
  assert (Hfinal : forall best conf alts,
            NoDup (map fst ((best, conf) :: alts)) ->
            Sorted conf_ge ((best, conf) :: alts) ->
            exists res,
              (let tempo := estimate_tempo beats_in in
               taal_def <- registry_getitem best ;;
               let matra_duration := if 0 <? tempo then 60.0 / tempo else 0.0 in
               let cycle_duration :=
                 matra_duration * Py.float_of_int (matras taal_def) in
               beat_infos <- _build_beat_infos beats_in strengths taal_def ;;
               Ok {| taal := best;
                     confidence := conf;
                     tempo_bpm := Py.round tempo 1;
                     matra_duration := Py.round matra_duration 4;
                     cycle_duration := Py.round cycle_duration 4;
                     beats := beat_infos;
                     alternative_taals := alts |}) = Ok res
              /\ exists u,
                   NoDup (map fst ((taal res, confidence res) :: alternative_taals res))
                   /\ Sorted conf_ge ((taal res, confidence res) :: alternative_taals res)
                   /\ registry_getitem (taal res) = Ok u
                   /\ beats res = spec_beat_infos u strengths 0 beats_in).
  { intros best conf alts Hnd Hs.
    destruct (registry_getitem_total best) as (u & Hu & Hreg & _).
    cbv zeta. rewrite Hu. cbn [bind].
    rewrite build_beat_infos_spec
      by (pose proof (registered_matras_positive u Hreg); lia).
    cbn [bind]. eexists. split; [reflexivity|].
    exists u. cbn [taal confidence alternative_taals beats]. auto. }
  destruct r0 as [|[best conf] alts].
  - rewrite Hr1. cbn [bind]. destruct r1 as [|[best conf] alts].
    + destruct (fallback_spec beats_in cl) as (res & _ & _ & _ & Hres & _).
      exists res. split; [reflexivity|]. split; [exact Hres|]. left. auto.
    + destruct (Hfinal best conf alts Hnd1 Hs1) as (res & Hres & Hprops).
      exists res. split; [reflexivity|]. split; [exact Hres|]. now right.
  - cbn [bind]. destruct (Hfinal best conf alts Hnd0 Hs0) as (res & Hres & Hprops).
    exists res. split; [reflexivity|]. split; [exact Hres|]. now right.
Qed.

End Pipeline.

(** ** Properties of the claims: matcher, retry, fallback, pipeline *)

Section PipelineClaims.
Local Open Scope float_scope.

(** C4. The retry controller takes the four attempts at offsets -1, +1,
    -2, +2 in this order, an attempt at a non-positive length being
    skipped, and returns their concatenation sorted by descending
    confidence; every returned pair [(t, c)] has [c = c0 * 0.8] where
    [c0] is the confidence the matcher gives [t] at the matras of [t],
    which is one of the four nearby lengths. *)
Theorem retry_controller_penalizes (strengths : list float) (cycle_length : Z) :
  exists p1 p2 p3 p4 merged,
    retry_attempt strengths (cycle_length + -1) p1
    /\ retry_attempt strengths (cycle_length + 1) p2
    /\ retry_attempt strengths (cycle_length + -2) p3
    /\ retry_attempt strengths (cycle_length + 2) p4
    /\ _try_nearby_cycle_lengths strengths cycle_length = Ok merged
    /\ merged = sorted_desc (p1 ++ p2 ++ p3 ++ p4)
    /\ Sorted conf_ge merged
    /\ forall t c, In (t, c) merged ->
         exists u rankings c0,
           registry_getitem t = Ok u
           /\ (0 < matras u)%Z
           /\ In (matras u - cycle_length)%Z [-1; 1; -2; 2]%Z
           /\ match_accent_pattern strengths (matras u) = Ok rankings
           /\ In (t, c0) rankings
           /\ c = c0 * 0.8.
Proof.
  destruct (retry_spec strengths cycle_length)
    as (p1 & p2 & p3 & p4 & H1 & H2 & H3 & H4 & Hrun).
  destruct (retry_entries strengths cycle_length)
    as (merged & Hrun' & _ & Hs & Hent).
  exists p1, p2, p3, p4, merged.
  repeat (split; [assumption|]).
  split; [congruence|]. split; assumption.
Qed.

Lemma retry_controller_witness :
  exists merged,
    _try_nearby_cycle_lengths [0.2; 0.5; 0.5; 0.8; 0.5; 0.8; 0.5; 0.3; 0.6] 9
    = Ok merged
    /\ Sorted conf_ge merged.
Proof.
  destruct (retry_controller_penalizes
              [0.2; 0.5; 0.5; 0.8; 0.5; 0.8; 0.5; 0.3; 0.6] 9)
    as (p1 & p2 & p3 & p4 & merged & _ & _ & _ & _ & Hrun & _ & Hs & _).
  exists merged. split; [exact Hrun | exact Hs].
Defined.

(** C9. A ranking of the matcher is sorted by non-increasing confidence
    and every confidence lies in [[0, 1]]; in a detection result the
    best taal does not occur among the alternatives, which are sorted by
    non-increasing confidence (a fallback result has no alternatives;
    otherwise best and alternatives together are the sorted ranking). *)
Theorem rankings_sorted_and_alternatives_exclude_best
        (beats_in : list float) (downbeats : list (float * Z))
        (strengths : list float) (cycle_length : Z) :
  (exists rankings,
      match_accent_pattern strengths cycle_length = Ok rankings
      /\ Sorted conf_ge rankings
      /\ Forall (fun r => in_unit_interval (snd r)) rankings)
  /\ (exists res,
        detect_taal beats_in downbeats strengths = Ok res
        /\ ~ In (taal res) (map fst (alternative_taals res))
        /\ Sorted conf_ge (alternative_taals res)
        /\ (alternative_taals res = []
            \/ Sorted conf_ge
                 ((taal res, confidence res) :: alternative_taals res))).
Proof.
  split.
  - destruct (matcher_total strengths cycle_length) as (r & Hr).
    exists r. split; [exact Hr|].
    destruct (matcher_entries _ _ _ Hr) as (_ & Hs & Hent).
    split; [exact Hs|]. apply Forall_forall. intros [t c] Hin.
    exact (proj1 (Hent t c Hin)).
  - destruct (detect_cases beats_in downbeats strengths)
      as (cl & res & _ & Hres & [(_ & _ & Hfb)|(u & Hnd & Hs & _)]).
    + exists res. split; [exact Hres|].
      destruct (fallback_spec beats_in cl)
        as (res' & _ & _ & _ & Hres' & _ & _ & _ & _ & _ & _ & Halt).
      assert (res' = res) by congruence. subst res'.
      rewrite Halt. simpl. split; [tauto|]. split; [constructor|now left].
    + exists res. split; [exact Hres|].
      simpl in Hnd. inversion Hnd; subst. inversion Hs; subst. auto.
Qed.

Lemma rankings_sorted_witness :
  exists res,
    detect_taal [0; 0.5; 1; 1.5] (fixture_downbeats 2 9)
                [0.2; 0.5; 0.5; 0.8; 0.5; 0.8; 0.5; 0.3; 0.6] = Ok res
    /\ ~ In (taal res) (map fst (alternative_taals res))
    /\ Sorted conf_ge (alternative_taals res).
Proof.
  destruct (proj2 (rankings_sorted_and_alternatives_exclude_best
                     [0; 0.5; 1; 1.5] (fixture_downbeats 2 9)
                     [0.2; 0.5; 0.5; 0.8; 0.5; 0.8; 0.5; 0.3; 0.6] 9))
    as (res & Hres & Hni & Hs & _).
  exists res. split; [exact Hres|]. split; [exact Hni | exact Hs].
Defined.

(** C7. When the matcher is empty at the estimated length and the retry
    is empty too, the pipeline returns the fallback result: its taal is
    the first registered taal (in registry order) whose matras is
    nearest to the estimate, its confidence is [0.1], and it has no
    beats and no alternatives. *)
Theorem empty_rankings_give_fallback
        (beats_in : list float) (downbeats : list (float * Z))
        (strengths : list float) (cycle_length : Z) :
  estimate_cycle_length downbeats = Ok cycle_length ->
  match_accent_pattern strengths cycle_length = Ok [] ->
  _try_nearby_cycle_lengths strengths cycle_length = Ok [] ->
  exists res u l1 l2,
    detect_taal beats_in downbeats strengths = Ok res
    /\ _build_fallback_result beats_in cycle_length = Ok res
    /\ registry_getitem (taal res) = Ok u
    /\ registry_values = l1 ++ u :: l2
    /\ (forall v, In v l1 ->
          (Z.abs (matras u - cycle_length) < Z.abs (matras v - cycle_length))%Z)
    /\ (forall v, In v l2 ->
          (Z.abs (matras u - cycle_length) <= Z.abs (matras v - cycle_length))%Z)
    /\ confidence res = 0.1
    /\ beats res = []
    /\ alternative_taals res = [].
Proof.
  intros Hcl Hmatch Hretry.
  destruct (fallback_spec beats_in cycle_length)
    as (res & u & l1 & l2 & Hres & Hrest).
  exists res, u, l1, l2. split; [|split; [exact Hres|exact Hrest]].
  unfold detect_taal. rewrite Hcl. cbn [bind]. rewrite Hmatch. cbn [bind].
  rewrite Hretry. cbn [bind]. exact Hres.
Qed.

Lemma empty_rankings_give_fallback_witness :
  exists res u l1 l2,
    detect_taal [0; 0.5; 1] [] [0.9; 0.2; 0.4] = Ok res
    /\ _build_fallback_result [0; 0.5; 1] 0 = Ok res
    /\ registry_getitem (taal res) = Ok u
    /\ registry_values = l1 ++ u :: l2
    /\ (forall v, In v l1 ->
          (Z.abs (matras u - 0) < Z.abs (matras v - 0))%Z)
    /\ (forall v, In v l2 ->
          (Z.abs (matras u - 0) <= Z.abs (matras v - 0))%Z)
    /\ confidence res = 0.1
    /\ beats res = []
    /\ alternative_taals res = [].
Proof.
  apply (empty_rankings_give_fallback [0; 0.5; 1] [] [0.9; 0.2; 0.4] 0);
    reflexivity.
Defined.



(** No other malformed input is rejected: the pipeline returns a result
    for every beat list, downbeat stream and strength list; the matcher
    gives a non-positive cycle length the empty ranking; and the
    annotator gives every beat an entry, with strength [0.0] where the
    strength array is too short. *)
Lemma other_malformed_inputs_pass
      (beats_in : list float) (downbeats : list (float * Z))
      (strengths : list float) (cycle_length : Z) (t : TaalDefinition) :
  (exists res, detect_taal beats_in downbeats strengths = Ok res)
  /\ ((cycle_length <= 0)%Z ->
      match_accent_pattern strengths cycle_length = Ok [])
  /\ (In t registry_values ->
      exists infos,
        _build_beat_infos beats_in strengths t = Ok infos
        /\ length infos = length beats_in
        /\ forall k info,
             nth_error infos k = Some info ->
             (length strengths <= k)%nat ->
             strength info = 0).
Proof.
  split; [|split].
  - destruct (detect_cases beats_in downbeats strengths)
      as (cl & res & _ & Hres & _). eauto.
  - apply matcher_nonpositive.
  - intros Hreg. exists (spec_beat_infos t strengths 0 beats_in).
    split; [|split].
    + apply build_beat_infos_spec.
      pose proof (registered_matras_positive t Hreg). lia.
    + apply spec_beat_infos_length.
    + intros k info Hk Hlen.
      destruct (spec_beat_infos_nth _ _ _ _ _ _ Hk) as (b & _ & ->).
      cbn [strength spec_beat_info].
      destruct (Z.ltb_spec (0 + Z.of_nat k) (Py.len strengths)) as [Hlt|_];
        [unfold Py.len in Hlt; lia | reflexivity].
Qed.

End PipelineClaims.

(** * Further properties of the code *)

(** ** Vibhag boundaries ([models.py]) *)

Section Boundaries.

Lemma sum_Z_firstn_cons (v : Z) (vs : list Z) (k : nat) :
  sum_Z (firstn (S k) (v :: vs)) = v + sum_Z (firstn k vs).
Proof. reflexivity. Qed.

(** The appending loop of [vibhag_boundaries], started from a non-empty
    list, appends the running sums. *)
Lemma boundaries_fold (vs : list Z) :
  forall acc,
    fold_left (fun boundaries v => boundaries ++ [last boundaries 0 + v]) vs acc
    = acc ++ map (fun k => last acc 0 + sum_Z (firstn k vs))
                 (seq 1 (length vs)).
Proof.
  induction vs as [|v vs IH]; intros acc; simpl.
  - now rewrite app_nil_r.
  - rewrite IH, last_last, <- app_assoc. f_equal. simpl. f_equal.
    + unfold sum_Z. simpl. lia.
    + rewrite <- (seq_shift (length vs) 1), map_map. apply map_ext. intros k.
      change (firstn (S k) (v :: vs)) with (v :: firstn k vs).
      unfold sum_Z. simpl. lia.
Qed.

Lemma boundaries_as_prefix_sums (t : TaalDefinition) :
  vibhag_boundaries t =
  map (fun k => sum_Z (firstn k (vibhags t)))
      (seq 0 (Nat.max 1 (length (vibhags t)))).
Proof.
  unfold vibhag_boundaries. rewrite boundaries_fold.
  assert (Hlen : length (removelast (vibhags t)) = pred (length (vibhags t))).
  { rewrite removelast_firstn_len, length_firstn. lia. }
  rewrite Hlen.
  replace (Nat.max 1 (length (vibhags t))) with (S (pred (length (vibhags t))))
    by lia.
  cbn [seq map app last firstn]. f_equal.
  apply map_ext_in. intros k Hk. apply in_seq in Hk.
  rewrite firstn_removelast by lia. simpl. reflexivity.
Qed.

Lemma prefix_sum_increasing (vs : list Z) :
  Forall (fun v => 0 < v) vs ->
  forall i j, (i < j <= length vs)%nat ->
              sum_Z (firstn i vs) < sum_Z (firstn j vs).
Proof.
  induction 1 as [|v vs Hv _ IH]; intros i j Hij; simpl in Hij; [lia|].
  destruct j as [|j]; [lia|]. destruct i as [|i].
  - rewrite sum_Z_firstn_cons. change (sum_Z (firstn 0 (v :: vs))) with 0.
    destruct j as [|j]; [simpl; unfold sum_Z; simpl; lia|].
    assert (0 < sum_Z (firstn (S j) vs)).
    { change 0 with (sum_Z (firstn 0 vs)). apply IH. lia. }
    lia.
  - rewrite !sum_Z_firstn_cons. specialize (IH i j). lia.
Qed.

Lemma prefix_sum_below_total (vs : list Z) (k : nat) :
  Forall (fun v => 0 < v) vs -> (k < length vs)%nat ->
  0 <= sum_Z (firstn k vs) < sum_Z vs.
Proof.
  intros Hpos Hk. split.
  - destruct k as [|k]; [unfold sum_Z; simpl; lia|].
    change 0 with (sum_Z (firstn 0 vs)).
    apply Z.lt_le_incl, prefix_sum_increasing; trivial. lia.
  - rewrite <- (firstn_all vs) at 2. apply prefix_sum_increasing; trivial. lia.
Qed.

Lemma map_seq_strictly_sorted (f : nat -> Z) (n : nat) :
  forall a,
    (forall i j, (a <= i < j)%nat -> (j < a + n)%nat -> f i < f j) ->
    StronglySorted Z.lt (map f (seq a n)).
Proof.
  induction n as [|n IH]; intros a Hf; simpl; constructor.
  - apply IH. intros i j Hij Hj. apply Hf; lia.
  - apply Forall_forall. intros x Hx. apply in_map_iff in Hx.
    destruct Hx as (j & <- & Hj). apply in_seq in Hj. apply Hf; lia.
Qed.

Lemma nth_map_seq {A : Type} (f : nat -> A) (d : A) (n : nat) :
  forall a k, (k < n)%nat -> nth k (map f (seq a n)) d = f (a + k)%nat.
Proof.
  induction n as [|n IH]; intros a k Hk; [lia|].
  destruct k as [|k]; simpl.
  - now rewrite Nat.add_0_r.
  - rewrite IH by lia. f_equal. lia.
Qed.

(** X1. The [k]-th vibhag boundary is the sum of the first [k] vibhag
    lengths; there is one boundary per vibhag (and the single boundary
    [0] when there is no vibhag). *)
Theorem vibhag_boundaries_are_prefix_sums (t : TaalDefinition) :
  length (vibhag_boundaries t) = Nat.max 1 (length (vibhags t))
  /\ forall k, (k < Nat.max 1 (length (vibhags t)))%nat ->
       nth k (vibhag_boundaries t) 0 = sum_Z (firstn k (vibhags t)).
Proof.
  rewrite boundaries_as_prefix_sums. split.
  - now rewrite length_map, length_seq.
  - intros k Hk. now rewrite nth_map_seq.
Qed.

(** X2. When every vibhag length is positive, the boundaries increase
    strictly, start at [0], and all lie inside the cycle
    [[0, sum(vibhags))]. *)
Theorem vibhag_boundaries_increase_inside_cycle (t : TaalDefinition) :
  vibhags t <> [] ->
  Forall (fun v => 0 < v) (vibhags t) ->
  StronglySorted Z.lt (vibhag_boundaries t)
  /\ hd_error (vibhag_boundaries t) = Some 0
  /\ Forall (fun b => 0 <= b < sum_Z (vibhags t)) (vibhag_boundaries t).
Proof.
  intros Hne Hpos. rewrite boundaries_as_prefix_sums.
  assert (Hmax : Nat.max 1 (length (vibhags t)) = length (vibhags t)).
  { destruct (vibhags t); [congruence|simpl; lia]. }
  rewrite Hmax. split; [|split].
  - apply map_seq_strictly_sorted. intros i j Hij Hj.
    apply prefix_sum_increasing; trivial. lia.
  - destruct (vibhags t) as [|v vs]; [congruence|]. reflexivity.
  - apply Forall_forall. intros b Hb. apply in_map_iff in Hb.
    destruct Hb as (k & <- & Hk). apply in_seq in Hk.
    apply prefix_sum_below_total; trivial. lia.
Qed.

Lemma vibhag_boundaries_rupak_witness :
  StronglySorted Z.lt (vibhag_boundaries rupak)
  /\ hd_error (vibhag_boundaries rupak) = Some 0
  /\ Forall (fun b => 0 <= b < sum_Z (vibhags rupak)) (vibhag_boundaries rupak).
Proof.
  apply (vibhag_boundaries_increase_inside_cycle rupak).
  - discriminate.
  - repeat constructor.
Defined.

End Boundaries.

Lemma vibhag_boundaries_teentaal_witness :
  nth 3 (vibhag_boundaries teentaal) 0 = sum_Z (firstn 3 (vibhags teentaal)).
Proof.
  apply (proj2 (vibhag_boundaries_are_prefix_sums teentaal)).
  simpl. lia.
Defined.

(** ** Candidate matra counts ([taals/definitions.py]) *)

Section CandidateCounts.

Lemma insert_asc_Z_In (x y : Z) (l : list Z) :
  In y (insert_asc_Z x l) <-> y = x \/ In y l.
Proof.
  induction l as [|z l IH]; simpl.
  - intuition.
  - destruct (z <? x); simpl; rewrite ?IH; intuition.
Qed.

Lemma sorted_asc_Z_In (y : Z) (l : list Z) :
  In y (sorted_asc_Z l) <-> In y l.
Proof.
  induction l as [|x l IH]; simpl; [tauto|].
  rewrite insert_asc_Z_In, IH. intuition.
Qed.

Lemma insert_asc_Z_strict (x : Z) (l : list Z) :
  ~ In x l -> StronglySorted Z.lt l -> StronglySorted Z.lt (insert_asc_Z x l).
Proof.
  induction l as [|z l IH]; intros Hni Hs; simpl.
  - repeat constructor.
  - apply StronglySorted_inv in Hs. destruct Hs as [Hs Hall].
    destruct (Z.ltb_spec z x) as [Hlt|Hge].
    + constructor.
      * apply IH; trivial. intros Hin. apply Hni. now right.
      * apply Forall_forall. intros y Hy. apply insert_asc_Z_In in Hy.
        destruct Hy as [->|Hy]; trivial.
        exact (proj1 (Forall_forall _ _) Hall y Hy).
    + assert (Hxz : x < z) by (assert (x <> z) by (intros ->; apply Hni; now left); lia).
      constructor; [now constructor|].
      constructor; trivial.
      revert Hall. apply Forall_impl. intros y Hy. lia.
Qed.

Lemma sorted_asc_Z_strict (l : list Z) :
  NoDup l -> StronglySorted Z.lt (sorted_asc_Z l).
Proof.
  induction 1 as [|x l Hni _ IH]; simpl; [constructor|].
  apply insert_asc_Z_strict; trivial. now rewrite sorted_asc_Z_In.
Qed.

Lemma candidates_nonempty_iff (m : Z) :
  get_taals_by_matras m <> [] <-> In m (map matras registry_values).
Proof.
  split.
  - intros Hne. destruct (get_taals_by_matras m) as [|t ts] eqn:E; [congruence|].
    assert (Ht : In t (get_taals_by_matras m)) by (rewrite E; now left).
    apply get_taals_by_matras_In in Ht. destruct Ht as [Hreg <-].
    now apply in_map.
  - intros Hin Hnil. apply in_map_iff in Hin. destruct Hin as (t & Hm & Hreg).
    assert (Ht : In t (get_taals_by_matras m))
      by (apply get_taals_by_matras_In; auto).
    rewrite Hnil in Ht. destruct Ht.
Qed.

Lemma candidate_count_iff (m : Z) :
  In m get_candidate_matra_counts <-> get_taals_by_matras m <> [].
Proof.
  unfold get_candidate_matra_counts.
  rewrite sorted_asc_Z_In, nodup_In. symmetry. apply candidates_nonempty_iff.
Qed.

(** X3. The candidate matra counts are strictly increasing (sorted,
    without repetition), and a length is among them exactly when
    [get_taals_by_matras] finds a taal of that length. *)
Theorem candidate_counts_sorted_and_complete (m : Z) :
  StronglySorted Z.lt get_candidate_matra_counts
  /\ (In m get_candidate_matra_counts <-> get_taals_by_matras m <> []).
Proof.
  split.
  - apply sorted_asc_Z_strict, NoDup_nodup.
  - apply candidate_count_iff.
Qed.

End CandidateCounts.

(** ** The matcher and the registry *)

Section MatcherRegistry.
Local Open Scope float_scope.

Lemma registry_matras_NoDup : NoDup (map matras registry_values).
Proof.
  simpl. repeat constructor; simpl; intuition discriminate.
Qed.

Lemma filter_by_injective_key {A : Type} (key : A -> Z) (m : Z) (l : list A) :
  NoDup (map key l) -> (length (filter (fun a => key a =? m)%Z l) <= 1)%nat.
Proof.
  induction l as [|a l IH]; simpl; intros Hnd; [lia|].
  inversion Hnd as [|? ? Hni Hnd']; subst.
  destruct (Z.eqb_spec (key a) m) as [E|E]; [|auto].
  simpl. assert (Hnil : filter (fun a0 => (key a0 =? m)%Z) l = []).
  { destruct (filter (fun a0 => (key a0 =? m)%Z) l) as [|b bs] eqn:Ef; trivial.
    exfalso. apply Hni.
    assert (Hb : In b (filter (fun a0 => (key a0 =? m)%Z) l))
      by (rewrite Ef; now left).
    apply filter_In in Hb. destruct Hb as [Hb Hk].
    apply Z.eqb_eq in Hk. rewrite E, <- Hk. now apply in_map. }
  rewrite Hnil. simpl. lia.
Qed.

(** X4. The matcher never raises and ranks exactly the registered taals
    of the given length: the names in the ranking are those of
    [get_taals_by_matras], the ranking is empty exactly when the length
    is not a candidate matra count, and it never has more than one
    entry (no two registered taals share a length). *)
Theorem matcher_ranks_registered_lengths
        (observed : list float) (cycle_length : Z) :
  exists rankings,
    match_accent_pattern observed cycle_length = Ok rankings
    /\ Permutation (map fst rankings)
                   (map name (get_taals_by_matras cycle_length))
    /\ (rankings = [] <-> ~ In cycle_length get_candidate_matra_counts)
    /\ (length rankings <= 1)%nat.
Proof.
  destruct (matcher_spec observed cycle_length) as (res & Hrun & Hnames & _).
  exists (sorted_desc res). split; [exact Hrun|].
  assert (Hperm : Permutation (map fst (sorted_desc res))
                              (map name (get_taals_by_matras cycle_length))).
  { rewrite <- Hnames. apply Permutation_map, sorted_desc_perm. }
  split; [exact Hperm|]. split.
  - rewrite candidate_count_iff. split.
    + intros Hnil Hne. apply Hne. rewrite Hnil in Hperm. simpl in Hperm.
      apply Permutation_nil in Hperm.
      destruct (get_taals_by_matras cycle_length); [trivial|discriminate].
    + intros Hno. destruct (get_taals_by_matras cycle_length) as [|t ts] eqn:E.
      * simpl in Hperm. apply Permutation_sym, Permutation_nil in Hperm.
        destruct (sorted_desc res); [trivial|discriminate].
      * exfalso. apply Hno. discriminate.
  - apply Permutation_length in Hperm. rewrite !length_map in Hperm.
    rewrite Hperm. apply filter_by_injective_key. exact registry_matras_NoDup.
Qed.

End MatcherRegistry.

(** ** Averaging, normalising and the template builder at their edges *)

Section Edges.
Local Open Scope float_scope.

(** The trailing partial cycle is not read. *)
Lemma average_ignores_tail (full tail : list float) (cycle_length : Z) :
  (0 < cycle_length)%Z ->
  full <> [] ->
  (Py.len full mod cycle_length = 0)%Z ->
  (Py.len tail < cycle_length)%Z ->
  _average_cyclic_pattern (full ++ tail) cycle_length
  = _average_cyclic_pattern full cycle_length.
Proof.
  intros Hpos Hne Hmod Htail.
  rewrite (proj1 (cyclic_average_refines (full ++ tail) cycle_length Hpos)).
  rewrite (proj1 (cyclic_average_refines full cycle_length Hpos)).
  f_equal. unfold spec_cyclic_average.
  assert (Hq : (Py.len full = cycle_length * (Py.len full / cycle_length))%Z).
  { apply Z.div_exact; lia. }
  set (q := (Py.len full / cycle_length)%Z) in *.
  assert (Hqpos : (0 < q)%Z).
  { assert (0 < Py.len full)%Z
      by (unfold Py.len; destruct full; [congruence|simpl; lia]).
    assert (0 <= q)%Z by (apply Z.div_pos; unfold Py.len; lia). nia. }
  assert (Hdiv : (Py.len (full ++ tail) / cycle_length = q)%Z).
  { unfold Py.len in *. rewrite length_app, Nat2Z.inj_add, Hq.
    rewrite (Z.mul_comm cycle_length q), Z.div_add_l by lia.
    rewrite Z.div_small by lia. lia. }
  rewrite Hdiv.
  destruct (Z.eqb_spec q 0) as [?|_]; [lia|].
  apply map_ext_in. intros j Hj. apply in_seq in Hj.
  f_equal. f_equal. apply map_ext_in. intros k Hk. apply in_seq in Hk.
  apply app_nth1. unfold Py.len in Hq.
  assert (Z.of_nat (k * Z.to_nat cycle_length + j) < cycle_length * q)%Z; [|lia].
  rewrite Nat2Z.inj_add, Nat2Z.inj_mul, Z2Nat.id by lia.
  assert (Z.of_nat k + 1 <= q)%Z by lia. nia.
Qed.

(** X5. Cyclic averaging does not read a trailing partial cycle: after
    at least one full cycle, appending fewer than [cycle_length] further
    strengths leaves the average unchanged. *)
Theorem average_unchanged_by_trailing_partial_cycle
        (full tail : list float) (cycle_length : Z) :
  (0 < cycle_length)%Z ->
  full <> [] ->
  (Py.len full mod cycle_length = 0)%Z ->
  (Py.len tail < cycle_length)%Z ->
  _average_cyclic_pattern (full ++ tail) cycle_length
  = _average_cyclic_pattern full cycle_length.
Proof.
  exact (average_ignores_tail full tail cycle_length).
Qed.

Lemma average_trailing_witness :
  _average_cyclic_pattern ([0.9; 0.1; 0.8; 0.3] ++ [0.7]) 2
  = _average_cyclic_pattern [0.9; 0.1; 0.8; 0.3] 2.
Proof.
  apply (average_unchanged_by_trailing_partial_cycle
           [0.9; 0.1; 0.8; 0.3] [0.7] 2);
    [reflexivity | discriminate | reflexivity | reflexivity].
Defined.

(** X6. The same holds for the matcher: the ranking, confidences
    included, does not depend on a trailing partial cycle of the
    observed strengths. *)
Theorem matcher_unchanged_by_trailing_partial_cycle
        (full tail : list float) (cycle_length : Z) :
  (0 < cycle_length)%Z ->
  full <> [] ->
  (Py.len full mod cycle_length = 0)%Z ->
  (Py.len tail < cycle_length)%Z ->
  match_accent_pattern (full ++ tail) cycle_length
  = match_accent_pattern full cycle_length.
Proof.
  intros Hpos Hne Hmod Htail. unfold match_accent_pattern.
  now rewrite (average_ignores_tail full tail cycle_length Hpos Hne Hmod Htail).
Qed.

Lemma matcher_trailing_witness :
  match_accent_pattern ([0.2; 0.5; 0.5; 0.8; 0.5; 0.8; 0.5] ++ [0.9; 0.9]) 7
  = match_accent_pattern [0.2; 0.5; 0.5; 0.8; 0.5; 0.8; 0.5] 7.
Proof.
  apply (matcher_unchanged_by_trailing_partial_cycle
           [0.2; 0.5; 0.5; 0.8; 0.5; 0.8; 0.5] [0.9; 0.9] 7);
    [reflexivity | discriminate | reflexivity | reflexivity].
Defined.

(** X7. Cyclic averaging raises exactly for a negative cycle length
    (the [ValueError] of [np.zeros]); for every other length it returns
    an array of that length, all zeros when there are no strengths (the
    empty array for length 0). *)
Theorem average_raises_only_for_negative_length
        (strengths : list float) (cycle_length : Z) :
  ((cycle_length < 0)%Z ->
   _average_cyclic_pattern strengths cycle_length = Raise ValueError)
  /\ ((0 <= cycle_length)%Z ->
      exists avg,
        _average_cyclic_pattern strengths cycle_length = Ok avg
        /\ Py.len avg = cycle_length
        /\ (strengths = [] -> avg = repeat 0 (Z.to_nat cycle_length))).
Proof.
  split.
  - intros Hneg. unfold _average_cyclic_pattern, Py.np_zeros, Py.np_full.
    destruct (Z.leb_spec cycle_length 0) as [_|?]; [|lia].
    rewrite orb_true_r.
    destruct (Z.ltb_spec cycle_length 0) as [_|?]; [reflexivity|lia].
  - intros Hge. destruct (Z.eq_dec cycle_length 0) as [->|Hnz].
    + exists []. unfold _average_cyclic_pattern. simpl.
      rewrite orb_true_r. auto.
    + assert (Hpos : (0 < cycle_length)%Z) by lia.
      destruct (cyclic_average_refines strengths cycle_length Hpos)
        as [Hrun Hlen].
      exists (spec_cyclic_average strengths cycle_length).
      split; [exact Hrun|]. split; [exact Hlen|].
      intros ->. unfold spec_cyclic_average. simpl.
      now rewrite Nat.sub_0_r.
Qed.

Lemma average_negative_length_witness :
  _average_cyclic_pattern [0.5; 0.3] (-1) = Raise ValueError.
Proof.
  apply (proj1 (average_raises_only_for_negative_length [0.5; 0.3] (-1))).
  reflexivity.
Defined.

(** X8. The template builder raises for a non-positive cycle length:
    [ValueError] for a negative one (from [np.ones]) and [IndexError]
    for [0] (the unguarded assignment at [sam_position] into an empty
    array), whatever the taal. *)
Theorem template_builder_raises_for_nonpositive_length
        (taal_name : TaalName) (cycle_length : Z) :
  ((cycle_length < 0)%Z ->
   _build_expected_accent_pattern taal_name cycle_length = Raise ValueError)
  /\ (cycle_length = 0%Z ->
      _build_expected_accent_pattern taal_name cycle_length = Raise IndexError).
Proof.
  split.
  - intros Hneg. unfold _build_expected_accent_pattern.
    destruct (registry_getitem_total taal_name) as (t & -> & _).
    cbn [bind]. unfold Py.np_ones, Py.np_full.
    destruct (Z.ltb_spec cycle_length 0) as [_|?]; [reflexivity|lia].
  - intros ->. destruct taal_name; reflexivity.
Qed.

Lemma template_builder_negative_witness :
  _build_expected_accent_pattern RUPAK (-7) = Raise ValueError.
Proof.
  apply (proj1 (template_builder_raises_for_nonpositive_length RUPAK (-7))).
  reflexivity.
Defined.

Lemma norm_of_zeros (n : nat) : np_linalg_norm (repeat 0 n) = 0.
Proof.
  unfold np_linalg_norm.
  assert (H : fold_left (fun acc a => acc + a * a) (repeat 0 n) 0 = 0).
  { induction n as [|n IH]; simpl; trivial. }
  rewrite H. reflexivity.
Qed.

(** X9. Normalisation keeps the length of its argument and never
    divides by a zero norm: the zero vector of any length is returned
    unchanged. *)
Theorem normalize_keeps_length_and_zero_vector (arr : list float) (n : nat) :
  length (_normalize arr) = length arr
  /\ _normalize (repeat 0 n) = repeat 0 n.
Proof.
  split; [apply normalize_length|].
  unfold _normalize. rewrite norm_of_zeros. reflexivity.
Qed.

End Edges.

(** ** The estimator on whole cycles, and its range *)

Section EstimatorRange.

(** An ascending run [a+1 .. a+k] only moves the scan along. *)
Lemma scan_ascending_run (k : nat) :
  forall (a : nat) (tail : list Z),
    spec_cycle_scan (Z.of_nat a) (Z.of_nat a)
                    (map Z.of_nat (seq (S a) k) ++ tail)
    = spec_cycle_scan (Z.of_nat (a + k)) (Z.of_nat (a + k)) tail.
Proof.
  induction k as [|k IH]; intros a tail.
  - simpl. now rewrite Nat.add_0_r.
  - cbn [seq map app spec_cycle_scan].
    destruct (Z.leb_spec (Z.of_nat (S a)) (Z.of_nat a)) as [?|_]; [lia|].
    replace (Z.max (Z.of_nat a) (Z.of_nat (S a))) with (Z.of_nat (S a)) by lia.
    rewrite IH. f_equal; f_equal; lia.
Qed.

Lemma scan_first_bar (m : nat) (tail : list Z) :
  spec_cycle_scan 0 0 (map Z.of_nat (seq 1 m) ++ tail)
  = spec_cycle_scan (Z.of_nat m) (Z.of_nat m) tail.
Proof. exact (scan_ascending_run m 0 tail). Qed.

Lemma repeated_cycles_succ (n c : nat) :
  repeated_cycles n (S c) = map Z.of_nat (seq 0 n) ++ repeated_cycles n c.
Proof. reflexivity. Qed.

(** The scan over the rest of a bar followed by [c] whole bars records
    the bar length once per reset, and once more for the last bar when
    it has more than one position. *)
Lemma scan_whole_cycles (m c : nat) :
  spec_cycle_scan 0 0 (map Z.of_nat (seq 1 m) ++ repeated_cycles (S m) c)
  = repeat (Z.of_nat (S m)) c
    ++ (if 0 <? Z.of_nat m then [Z.of_nat m + 1] else []).
Proof.
  induction c as [|c IH].
  - change (repeated_cycles (S m) 0) with (@nil Z).
    rewrite scan_first_bar. reflexivity.
  - rewrite repeated_cycles_succ, scan_first_bar.
    cbn [seq map app spec_cycle_scan].
    change (Z.of_nat 0) with 0.
    destruct (Z.leb_spec 0 (Z.of_nat m)) as [_|?]; [|lia].
    rewrite IH. cbn [repeat app]. f_equal. lia.
Qed.

Lemma recorded_on_whole_cycles (m c : nat) :
  recorded_cycle_lengths (repeated_cycles (S m) (S c))
  = repeat (Z.of_nat (S m)) c
    ++ (if 0 <? Z.of_nat m then [Z.of_nat m + 1] else []).
Proof.
  rewrite recorded_as_scan, repeated_cycles_succ.
  cbn [seq map app loop_recorded_lengths]. apply scan_whole_cycles.
Qed.

(** X10. On a stream made of whole bars - one or more repetitions of
    the positions [0 .. n-1], for any bar length [n >= 1] - the
    estimator returns [n]. *)
Theorem estimate_on_whole_cycles
        (downbeats : list (float * Z)) (n cycles : nat) :
  (1 <= n)%nat -> (1 <= cycles)%nat ->
  map snd downbeats = repeated_cycles n cycles ->
  estimate_cycle_length downbeats = Ok (Z.of_nat n).
Proof.
  intros Hn Hc Hpos.
  destruct n as [|m]; [lia|]. destruct cycles as [|c]; [lia|].
  destruct downbeats as [|d ds]; [discriminate|].
  rewrite estimate_nonempty, Hpos, recorded_on_whole_cycles.
  set (L := repeat (Z.of_nat (S m)) c
            ++ (if 0 <? Z.of_nat m then [Z.of_nat m + 1] else [])).
  assert (Hall : forall x, In x L -> x = Z.of_nat (S m)).
  { intros x Hx. subst L. apply in_app_or in Hx. destruct Hx as [Hx|Hx].
    - now apply repeat_spec in Hx.
    - destruct (0 <? Z.of_nat m); [|destruct Hx].
      destruct Hx as [<-|[]]. lia. }
  destruct L as [|l ls] eqn:EL.
  - destruct c; [|discriminate].
    destruct m as [|m]; [reflexivity|]. simpl in EL. discriminate.
  - destruct (vote_spec (l :: ls)) as (r & Hr & Hin & _); [discriminate|].
    rewrite Hr. f_equal. now apply Hall.
Qed.

Lemma estimate_on_whole_cycles_witness :
  estimate_cycle_length (fixture_downbeats 5 10) = Ok (Z.of_nat 10).
Proof.
  apply (estimate_on_whole_cycles (fixture_downbeats 5 10) 10 5).
  - lia.
  - lia.
  - vm_compute. reflexivity.
Defined.

Lemma fold_max_bounds_all (xs : list Z) :
  forall a, Forall (fun x => x <= fold_left Z.max xs a) xs.
Proof.
  induction xs as [|x xs IH]; intros a; simpl; constructor.
  - pose proof (fold_max_ge xs (Z.max a x)). lia.
  - apply IH.
Qed.

Lemma scan_lengths_bounded (rest : list Z) (M : Z) :
  forall prev cm,
    cm <= M -> Forall (fun p => p <= M) rest ->
    Forall (fun n => n <= M + 1) (spec_cycle_scan prev cm rest).
Proof.
  induction rest as [|p rest IH]; intros prev cm Hcm Hall; simpl.
  - destruct (0 <? cm); repeat constructor. lia.
  - inversion Hall as [|? ? Hp Hrest]; subst.
    destruct (p <=? prev).
    + constructor; [lia|]. now apply IH.
    + apply IH; trivial. lia.
Qed.

(** X11. The estimate never exceeds the greatest position plus one (and
    is at most 1 when no position is positive). *)
Theorem estimate_at_most_greatest_position_plus_one
        (d : float * Z) (ds : list (float * Z)) :
  exists n m,
    estimate_cycle_length (d :: ds) = Ok n
    /\ np_max (map snd (d :: ds)) = Ok m
    /\ n <= Z.max 0 m + 1.
Proof.
  rewrite estimate_nonempty.
  pose proof (recorded_as_scan (map snd (d :: ds))) as Hrec.
  cbn [map loop_recorded_lengths np_max] in *.
  set (m := fold_left Z.max (map snd ds) (snd d)).
  assert (Hbound : Forall (fun n => n <= Z.max 0 m + 1)
                          (recorded_cycle_lengths (snd d :: map snd ds))).
  { rewrite Hrec. apply scan_lengths_bounded; [lia|].
    pose proof (fold_max_bounds_all (map snd ds) (snd d)) as H.
    revert H. apply Forall_impl. intros x Hx. fold m in Hx. lia. }
  destruct (recorded_cycle_lengths (snd d :: map snd ds)) as [|l ls] eqn:El.
  - exists (m + 1), m. cbn [bind]. repeat split. lia.
  - destruct (vote_spec (l :: ls)) as (r & Hr & Hin & _); [discriminate|].
    exists r, m. split; [exact Hr|]. split; [reflexivity|].
    exact (proj1 (Forall_forall _ _) Hbound r Hin).
Qed.

End EstimatorRange.

(** ** Properties of the claims: the first position of the stream *)

Section EstimatorFirstPosition.

Lemma scan_after_lone_first (p0 p1 : Z) (rest : list Z) :
  p1 <= p0 ->
  recorded_cycle_lengths (p0 :: p1 :: rest) = 1 :: spec_cycle_scan p1 p1 rest
  /\ spec_recorded_lengths (p0 :: p1 :: rest)
     = (p0 + 1) :: spec_cycle_scan p1 p1 rest.
Proof.
  intros Hle. rewrite recorded_as_scan.
  cbn [loop_recorded_lengths spec_recorded_lengths spec_cycle_scan].
  destruct (Z.leb_spec p1 p0) as [_|?]; [|lia]. split; reflexivity.
Qed.

Lemma scan_from_first_agrees (p0 p1 : Z) (rest : list Z) :
  p0 = 0 \/ 0 <= p0 < p1 ->
  recorded_cycle_lengths (p0 :: p1 :: rest)
  = spec_recorded_lengths (p0 :: p1 :: rest).
Proof.
  intros H. rewrite recorded_as_scan.
  cbn [loop_recorded_lengths spec_recorded_lengths].
  destruct H as [->|H]; [reflexivity|].
  cbn [spec_cycle_scan].
  destruct (Z.leb_spec p1 p0) as [?|_]; [lia|].
  f_equal. lia.
Qed.

(** A stream that starts on the last position [n] of a bar and goes on
    with one whole bar [0 .. n]. *)
Lemma lone_last_beat_then_bar (n : nat) :
  (1 <= n)%nat ->
  let positions := Z.of_nat n :: map Z.of_nat (seq 0 (S n)) in
  recorded_cycle_lengths positions = [1; Z.of_nat n + 1]
  /\ spec_recorded_lengths positions = [Z.of_nat n + 1; Z.of_nat n + 1]
  /\ most_common_1 (Counter (recorded_cycle_lengths positions)) = Ok 1.
Proof.
  intros Hn positions. subst positions. cbn [seq map].
  change (Z.of_nat 0) with 0.
  destruct (scan_after_lone_first (Z.of_nat n) 0 (map Z.of_nat (seq 1 n)))
    as [Hcode Hspec]; [lia|].
  assert (Hbar : spec_cycle_scan 0 0 (map Z.of_nat (seq 1 n))
                 = [Z.of_nat n + 1]).
  { rewrite <- (app_nil_r (map Z.of_nat (seq 1 n))), scan_first_bar.
    cbn [spec_cycle_scan].
    destruct (Z.ltb_spec 0 (Z.of_nat n)) as [_|?]; [reflexivity|lia]. }
  rewrite Hcode, Hspec, Hbar. split; [reflexivity|]. split; [reflexivity|].
  unfold Counter. cbn [fold_left counter_add].
  destruct (Z.eqb_spec 1 (Z.of_nat n + 1)) as [?|_]; [lia|].
  reflexivity.
Qed.

(** Two records of the same length: that length wins the vote, and
    no other value does. *)
Lemma vote_over_two_equal (a : Z) :
  vote_winner [a; a] a /\ forall r, vote_winner [a; a] r -> r = a.
Proof.
  split.
  - split; [now left|]. split.
    + intros x. unfold occurrences. simpl.
      destruct (Z.eq_dec a x), (Z.eq_dec a a); lia.
    + intros x [<-|[<-|[]]] Hne; congruence.
  - intros r (Hin & _). destruct Hin as [<-|[<-|[]]]; reflexivity.
Qed.

(** C5 (the code departs from the claim).  The code starts its running
    maximum at [0] and never lets the first position enter it.  For a
    stream whose first position is positive and is followed at once by
    a reset, the code records the length [1] where the rule of the
    claim records the first position plus one; every later record is
    the same.  On a stream that starts on the last position [n] of a
    bar and goes on with one whole bar [0 .. n], the code records
    [1, n+1] and returns [1]; the rule records [n+1] twice, so that
    [n+1] wins its vote and [1] does not.  Elsewhere
    the claim holds: when the stream starts at position [0], or its
    first bar has more than one position, the code records what the
    rule records; the estimate is the most frequent recorded length,
    the first encountered among equals; a stream without reset gives
    the greatest position plus one; the fixtures of four bars of 7 and
    three bars of 16 give 7 and 16, the empty stream 0. *)
Theorem first_position_is_not_counted (downbeats : list (float * Z)) :
  let positions := map snd downbeats in
  let lengths := recorded_cycle_lengths positions in
  (forall p0 p1 rest,
      positions = p0 :: p1 :: rest -> 0 < p0 -> p1 <= p0 ->
      exists r, lengths = 1 :: r
                /\ spec_recorded_lengths positions = (p0 + 1) :: r
                /\ lengths <> spec_recorded_lengths positions)
  /\ (forall n : nat,
        (1 <= n)%nat ->
        positions = Z.of_nat n :: map Z.of_nat (seq 0 (S n)) ->
        estimate_cycle_length downbeats = Ok 1
        /\ lengths = [1; Z.of_nat n + 1]
        /\ spec_recorded_lengths positions
           = [Z.of_nat n + 1; Z.of_nat n + 1]
        /\ vote_winner (spec_recorded_lengths positions) (Z.of_nat n + 1)
        /\ ~ vote_winner (spec_recorded_lengths positions) 1)
  /\ (forall p0 p1 rest,
        positions = p0 :: p1 :: rest -> p0 = 0 \/ 0 <= p0 < p1 ->
        lengths = spec_recorded_lengths positions)
  /\ (lengths <> [] ->
      exists r, estimate_cycle_length downbeats = Ok r
                /\ vote_winner lengths r)
  /\ (downbeats <> [] -> Sorted Z.lt positions ->
      exists m, np_max positions = Ok m
                /\ estimate_cycle_length downbeats = Ok (m + 1))
  /\ estimate_cycle_length (fixture_downbeats 4 7) = Ok 7
  /\ estimate_cycle_length (fixture_downbeats 3 16) = Ok 16
  /\ estimate_cycle_length [] = Ok 0.
Proof.
  cbv zeta. split; [|split; [|split; [|split; [|split]]]].
  - intros p0 p1 rest E Hpos Hle. rewrite E.
    destruct (scan_after_lone_first p0 p1 rest Hle) as [Hcode Hspec].
    exists (spec_cycle_scan p1 p1 rest). rewrite Hcode, Hspec.
    split; [reflexivity|]. split; [reflexivity|].
    intros Heq. inversion Heq. lia.
  - intros n Hn E.
    destruct (lone_last_beat_then_bar n Hn) as (Hcode & Hspec & Hvote).
    cbv zeta in Hcode, Hspec, Hvote. rewrite E.
    destruct (vote_over_two_equal (Z.of_nat n + 1)) as [Hwin Honly].
    split; [|split; [exact Hcode|split; [exact Hspec|]]].
    + destruct downbeats as [|d ds]; [discriminate|].
      rewrite estimate_nonempty, E, Hcode. rewrite Hcode in Hvote. exact Hvote.
    + rewrite Hspec. split; [exact Hwin|].
      intros H1. apply Honly in H1. lia.
  - intros p0 p1 rest E H. rewrite E. now apply scan_from_first_agrees.
  - apply estimate_is_vote_winner.
  - apply estimate_without_reset.
  - repeat split; vm_compute; reflexivity.
Qed.

Lemma first_position_lone_three :
  estimate_cycle_length
    [(0.5%float, 3); (1%float, 0); (1.5%float, 1); (2%float, 2); (2.5%float, 3)]
  = Ok 1
  /\ recorded_cycle_lengths [3; 0; 1; 2; 3] = [1; 4]
  /\ spec_recorded_lengths [3; 0; 1; 2; 3] = [4; 4]
  /\ vote_winner (spec_recorded_lengths [3; 0; 1; 2; 3]) 4
  /\ ~ vote_winner (spec_recorded_lengths [3; 0; 1; 2; 3]) 1.
Proof.
  apply (proj1 (proj2 (first_position_is_not_counted
           [(0.5%float, 3); (1%float, 0); (1.5%float, 1); (2%float, 2);
            (2.5%float, 3)])) 3%nat).
  - lia.
  - reflexivity.
Defined.

End EstimatorFirstPosition.

(** ** The beat annotator, beat by beat *)

Section AnnotatorCycle.
Local Open Scope float_scope.

(** X12. For a taal of positive matras the annotator returns one entry
    per beat; entry [k] carries the rounded beat time, the position
    [k mod matras] (so inside the cycle), the sam and khali flags of
    that position, and the flags repeat one cycle later.  With matras
    [0] and at least one beat it raises [ZeroDivisionError]. *)
Theorem beat_annotations_follow_the_cycle
        (beats_in strengths : list float) (t : TaalDefinition) :
  ((0 < matras t)%Z ->
   exists infos,
     _build_beat_infos beats_in strengths t = Ok infos
     /\ length infos = length beats_in
     /\ forall k info,
          nth_error infos k = Some info ->
          (exists b, nth_error beats_in k = Some b /\ time info = Py.round b 4)
          /\ beat_position info = (Z.of_nat k mod matras t)%Z
          /\ (0 <= beat_position info < matras t)%Z
          /\ is_sam info = (beat_position info =? sam_position t)%Z
          /\ is_khali info
             = existsb (Z.eqb (beat_position info)) (khali_positions t)
          /\ forall info',
               nth_error infos (k + Z.to_nat (matras t)) = Some info' ->
               beat_position info' = beat_position info
               /\ is_sam info' = is_sam info
               /\ is_khali info' = is_khali info)
  /\ (matras t = 0%Z -> beats_in <> [] ->
      _build_beat_infos beats_in strengths t = Raise ZeroDivisionError).
Proof.
  split.
  - intros Hpos. exists (spec_beat_infos t strengths 0 beats_in).
    split; [apply build_beat_infos_spec; lia|].
    split; [apply spec_beat_infos_length|].
    intros k info Hk.
    destruct (spec_beat_infos_nth _ _ _ _ _ _ Hk) as (b & Hb & ->).
    cbn [time beat_position is_sam is_khali spec_beat_info].
    rewrite Z.add_0_l.
    split; [eauto|]. split; [reflexivity|].
    split; [apply Z.mod_pos_bound; lia|].
    split; [reflexivity|]. split; [reflexivity|].
    intros info' Hk'.
    destruct (spec_beat_infos_nth _ _ _ _ _ _ Hk') as (b' & _ & ->).
    cbn [beat_position is_sam is_khali spec_beat_info].
    assert (E : ((0 + Z.of_nat (k + Z.to_nat (matras t))) mod matras t
                 = Z.of_nat k mod matras t)%Z).
    { rewrite Z.add_0_l, Nat2Z.inj_add, Z2Nat.id by lia.
      rewrite <- (Z.mul_1_l (matras t)) at 1.
      apply Z.mod_add. lia. }
    rewrite E. auto.
  - intros Hzero Hne. destruct beats_in as [|b bs]; [congruence|].
    unfold _build_beat_infos. cbn [for_each]. rewrite Hzero. reflexivity.
Qed.

Lemma beat_annotations_witness :
  exists infos,
    _build_beat_infos [0; 0.5; 1; 1.5] [0.9; 0.1] dadra = Ok infos
    /\ length infos = 4%nat.
Proof.
  destruct (proj1 (beat_annotations_follow_the_cycle
                     [0; 0.5; 1; 1.5] [0.9; 0.1] dadra) eq_refl)
    as (infos & Hrun & Hlen & _).
  exists infos. split; [exact Hrun | exact Hlen].
Defined.

End AnnotatorCycle.

(** ** Signs of rounded results *)

Section Signs.

(** A rounded non-negative mantissa keeps the sign it is given. *)
Lemma binary_round_aux_sign (s : bool) (m e : Z) (l : location) :
  0 <= m ->
  binary_round_aux prec emax s m e l = S754_zero s
  \/ (exists p e', binary_round_aux prec emax s m e l = S754_finite s p e')
  \/ binary_round_aux prec emax s m e l = S754_infinity s.
Proof.
  intros Hm. unfold binary_round_aux.
  pose proof (shr_fexp_nonneg m e l Hm) as H1.
  destruct (shr_fexp prec emax m e l) as [mrs' e']. simpl in H1.
  pose proof (shr_fexp_nonneg _ e' loc_Exact
                (round_nearest_even_nonneg _ (loc_of_shr_record mrs') H1)) as H2.
  destruct (shr_fexp prec emax _ e' loc_Exact) as [mrs'' e'']. simpl in H2.
  destruct (shr_m mrs'') as [|p|p]; [now left| |lia].
  destruct (e'' <=? emax - prec); [right; left; eauto | now right; right].
Qed.

Lemma nonneg_result_not_below_zero (x : spec_float) :
  x = S754_zero false
  \/ (exists p e, x = S754_finite false p e)
  \/ x = S754_infinity false ->
  SFltb x (S754_zero false) = false /\ SFleb (S754_zero false) x = true.
Proof.
  intros [->|[(p & e & ->)| ->]]; split; reflexivity.
Qed.

Lemma div_core_quotient_nonneg (m1 m2 : positive) (e1 e2 : Z) :
  0 <= fst (fst (SFdiv_core_binary prec emax (Zpos m1) e1 (Zpos m2) e2)).
Proof.
  unfold SFdiv_core_binary.
  set (s := e1 - e2 - _).
  set (m' := match s with Z0 => Zpos m1 | Zpos _ => Z.shiftl (Zpos m1) s
                     | Zneg _ => 0 end).
  assert (Hm' : 0 <= m').
  { subst m'. destruct s; try lia. apply Z.shiftl_nonneg. lia. }
  pose proof (Z.div_pos m' (Zpos m2) Hm' ltac:(lia)) as Hq.
  unfold Z.div in Hq. destruct (Z.div_eucl m' (Zpos m2)) as [q r]. exact Hq.
Qed.

(** Dividing a positive finite number by a number that is not [<= 0]
    never gives a negative result. *)
Lemma SFdiv_by_positive (m1 : positive) (e1 : Z) (y : spec_float) :
  SFleb y (S754_zero false) = false ->
  SFltb (SFdiv prec emax (S754_finite false m1 e1) y) (S754_zero false) = false.
Proof.
  destruct y as [s|s| |s m2 e2]; simpl.
  - discriminate.
  - destruct s; [discriminate|reflexivity].
  - reflexivity.
  - destruct s; [discriminate|]. intros _.
    pose proof (div_core_quotient_nonneg m1 m2 e1 e2) as Hq.
    destruct (SFdiv_core_binary prec emax (Zpos m1) e1 (Zpos m2) e2)
      as [[mz ez] lz]. simpl in Hq.
    exact (proj1 (nonneg_result_not_below_zero _
                    (binary_round_aux_sign false mz ez lz Hq))).
Qed.

(** Multiplying a number in [[0, 1]] by a positive finite number never
    gives a negative result or NaN. *)
Lemma SFmul_unit_by_positive (x : spec_float) (m2 : positive) (e2 : Z) :
  SFleb (S754_zero false) x = true ->
  SFleb x (S754_finite false 4503599627370496 (-52)) = true ->
  SFleb (S754_zero false) (SFmul prec emax x (S754_finite false m2 e2)) = true.
Proof.
  destruct x as [s|s| |s m e]; unfold SFmul.
  - intros _ _. destruct s; reflexivity.
  - destruct s; discriminate.
  - discriminate.
  - destruct s; [discriminate|]. intros _ _.
    exact (proj2 (nonneg_result_not_below_zero _
                    (binary_round_aux_sign false _ (e + e2) loc_Exact
                       (Pos2Z.is_nonneg (m * m2))))).
Qed.

End Signs.

(** ** Tempo ([beats.py]) *)

Section Tempo.
Local Open Scope float_scope.

(** X13. The inter-onset intervals are the differences of consecutive
    beat times: one fewer than the beats (none for fewer than two
    beats), the [k]-th being [beats[k+1] - beats[k]]. *)
Theorem ioi_are_consecutive_differences (beat_times : list float) :
  length (compute_ioi beat_times) = (length beat_times - 1)%nat
  /\ forall k, (S k < length beat_times)%nat ->
       nth k (compute_ioi beat_times) 0
       = nth (S k) beat_times 0 - nth k beat_times 0.
Proof.
  induction beat_times as [|a rest IH]; [split; [reflexivity|simpl; lia]|].
  destruct rest as [|b rest']; [split; [reflexivity|simpl; lia]|].
  destruct IH as [IHlen IHnth].
  change (compute_ioi (a :: b :: rest')) with ((b - a) :: compute_ioi (b :: rest')).
  split.
  - simpl length in *. lia.
  - intros [|k] Hk; [reflexivity|].
    change (nth (S k) ((b - a) :: compute_ioi (b :: rest')) 0)
      with (nth k (compute_ioi (b :: rest')) 0).
    rewrite IHnth by (simpl in *; lia). reflexivity.
Qed.

Lemma ioi_witness :
  nth 1 (compute_ioi [0; 0.5; 1.5; 2]) 0
  = nth 2 [0; 0.5; 1.5; 2] 0 - nth 1 [0; 0.5; 1.5; 2] 0.
Proof.
  apply (proj2 (ioi_are_consecutive_differences [0; 0.5; 1.5; 2])).
  simpl. lia.
Defined.

Lemma sixty_over_positive (x : float) :
  (x <=? 0) = false -> (60 / x <? 0) = false.
Proof.
  rewrite leb_spec, ltb_spec, div_spec. unfold SF64div.
  assert (H60 : exists m e, Prim2SF 60 = S754_finite false m e)
    by (vm_compute; eauto).
  destruct H60 as (m & e & ->).
  change (Prim2SF 0) with (S754_zero false).
  apply SFdiv_by_positive.
Qed.

(** X14. The estimated tempo is never negative, whatever the beat
    times (unsorted, infinite or NaN entries included); it is [0.0] for
    fewer than two beats and whenever the median interval is [<= 0],
    and [60 / median] otherwise. *)
Theorem tempo_is_never_negative (beat_times : list float) :
  (estimate_tempo beat_times <? 0) = false
  /\ ((length beat_times < 2)%nat -> estimate_tempo beat_times = 0)
  /\ (estimate_tempo beat_times = 0
      \/ ((np_median (compute_ioi beat_times) <=? 0) = false
          /\ estimate_tempo beat_times
             = 60 / np_median (compute_ioi beat_times))).
Proof.
  unfold estimate_tempo, Py.len.
  destruct (Z.ltb_spec (Z.of_nat (length beat_times)) 2) as [Hlt|Hge].
  - split; [reflexivity|]. split; [reflexivity|now left].
  - destruct (np_median (compute_ioi beat_times) <=? 0) eqn:Hmed.
    + split; [reflexivity|]. split; [lia|now left].
    + split; [now apply sixty_over_positive|]. split; [lia|now right].
Qed.

Lemma tempo_witness : estimate_tempo [1.5] = 0.
Proof.
  apply (proj1 (proj2 (tempo_is_never_negative [1.5]))). simpl. lia.
Defined.

End Tempo.

(** ** The paths of the pipeline *)

Section PipelinePaths.
Local Open Scope float_scope.

Lemma matcher_at_most_one (observed : list float) (cycle_length : Z)
      (rankings : list (TaalName * float)) :
  match_accent_pattern observed cycle_length = Ok rankings ->
  (length rankings <= 1)%nat.
Proof.
  destruct (matcher_spec observed cycle_length) as (res & -> & Hnames & _).
  intros E. inversion E; subst rankings.
  rewrite (Permutation_length (sorted_desc_perm res)).
  rewrite <- (length_map fst res), Hnames, length_map.
  apply filter_by_injective_key. exact registry_matras_NoDup.
Qed.

Lemma matcher_empty_no_candidates (observed : list float) (cycle_length : Z) :
  match_accent_pattern observed cycle_length = Ok [] ->
  forall t, In t registry_values -> matras t <> cycle_length.
Proof.
  destruct (matcher_spec observed cycle_length) as (res & -> & Hnames & _).
  intros E t Hreg Hm. inversion E as [Hnil].
  assert (Hres : res = []).
  { apply Permutation_nil. rewrite <- Hnil. apply sorted_desc_perm. }
  subst res. simpl in Hnames.
  assert (Ht : In t (get_taals_by_matras cycle_length))
    by (apply get_taals_by_matras_In; auto).
  destruct (get_taals_by_matras cycle_length); [destruct Ht|discriminate].
Qed.

Lemma retry_empty_no_neighbours (strengths : list float) (cycle_length : Z) :
  _try_nearby_cycle_lengths strengths cycle_length = Ok [] ->
  forall t, In t registry_values ->
            ~ In (matras t - cycle_length)%Z [-1; 1; -2; 2]%Z.
Proof.
  destruct (retry_spec strengths cycle_length)
    as (p1 & p2 & p3 & p4 & H1 & H2 & H3 & H4 & ->).
  intros E t Hreg Hoff. inversion E as [Hnil].
  assert (Happ : p1 ++ p2 ++ p3 ++ p4 = []).
  { apply Permutation_nil. rewrite <- Hnil. apply sorted_desc_perm. }
  apply app_eq_nil in Happ. destruct Happ as [-> Happ].
  apply app_eq_nil in Happ. destruct Happ as [-> Happ].
  apply app_eq_nil in Happ. destruct Happ as [-> ->].
  pose proof (registered_matras_positive t Hreg) as Hpos.
  assert (Hempty : forall n, retry_attempt strengths n [] ->
                             matras t = n -> False).
  { intros n Hn Hm. unfold retry_attempt in Hn.
    destruct (Z.ltb_spec 0 n) as [_|?]; [|lia].
    destruct Hn as (r & Hr & Hmap).
    destruct r; [|discriminate].
    exact (matcher_empty_no_candidates _ _ Hr t Hreg Hm). }
  simpl in Hoff.
  destruct Hoff as [E1|[E2|[E3|[E4|[]]]]];
    [apply (Hempty _ H1)|apply (Hempty _ H2)
     |apply (Hempty _ H3)|apply (Hempty _ H4)]; lia.
Qed.

(** How a detection result comes about, with its fields. *)
Lemma detect_paths (beats_in : list float) (downbeats : list (float * Z))
      (strengths : list float) :
  exists cycle_length r0 res,
    estimate_cycle_length downbeats = Ok cycle_length
    /\ match_accent_pattern strengths cycle_length = Ok r0
    /\ detect_taal beats_in downbeats strengths = Ok res
    /\ ((exists u, In (taal res, confidence res) r0
                   /\ r0 = (taal res, confidence res) :: alternative_taals res
                   /\ registry_getitem (taal res) = Ok u
                   /\ beats res = spec_beat_infos u strengths 0 beats_in)
        \/ (r0 = []
            /\ exists r1,
                 _try_nearby_cycle_lengths strengths cycle_length = Ok r1
                 /\ ((r1 = []
                      /\ _build_fallback_result beats_in cycle_length = Ok res)
                     \/ (exists u,
                           r1 = (taal res, confidence res)
                                  :: alternative_taals res
                           /\ registry_getitem (taal res) = Ok u
                           /\ beats res
                              = spec_beat_infos u strengths 0 beats_in)))).
Proof.
  destruct (estimate_total downbeats) as (cl & Hcl).
  destruct (matcher_total strengths cl) as (r0 & Hr0).
  destruct (retry_entries strengths cl) as (r1 & Hr1 & _).
  exists cl, r0. unfold detect_taal. rewrite Hcl. cbn [bind].
  rewrite Hr0. cbn [bind].
  assert (Hfinal : forall best conf alts,
            exists res,
              (let tempo := estimate_tempo beats_in in
               taal_def <- registry_getitem best ;;
               let matra_duration := if 0 <? tempo then 60.0 / tempo else 0.0 in
               let cycle_duration :=
                 matra_duration * Py.float_of_int (matras taal_def) in
               beat_infos <- _build_beat_infos beats_in strengths taal_def ;;
               Ok {| taal := best;
                     confidence := conf;
                     tempo_bpm := Py.round tempo 1;
                     matra_duration := Py.round matra_duration 4;
                     cycle_duration := Py.round cycle_duration 4;
                     beats := beat_infos;
                     alternative_taals := alts |}) = Ok res
              /\ taal res = best /\ confidence res = conf
              /\ alternative_taals res = alts
              /\ exists u, registry_getitem best = Ok u
                           /\ beats res = spec_beat_infos u strengths 0 beats_in).
  { intros best conf alts.
    destruct (registry_getitem_total best) as (u & Hu & Hreg & _).
    cbv zeta. rewrite Hu. cbn [bind].
    rewrite build_beat_infos_spec
      by (pose proof (registered_matras_positive u Hreg); lia).
    cbn [bind]. eexists. split; [reflexivity|].
    cbn [taal confidence alternative_taals beats]. eauto 6. }
  destruct r0 as [|[best conf] alts].
  - rewrite Hr1. cbn [bind]. destruct r1 as [|[best conf] alts].
    + destruct (fallback_spec beats_in cl) as (res & _ & _ & _ & Hres & _).
      exists res. repeat (split; [reflexivity || exact Hres|]).
      right. split; [reflexivity|]. exists []. split; [reflexivity|].
      left. auto.
    + destruct (Hfinal best conf alts)
        as (res & Hres & <- & <- & <- & u & Hu & Hb).
      exists res. repeat (split; [reflexivity || exact Hres|]).
      right. split; [reflexivity|]. eexists. split; [reflexivity|].
      right. exists u. auto.
  - cbn [bind]. destruct (Hfinal best conf alts)
      as (res & Hres & <- & <- & <- & u & Hu & Hb).
    exists res. repeat (split; [reflexivity || exact Hres|]).
    left. exists u. split; [now left|]. auto.
Qed.

(** X15. The pipeline returns a result for every input, and it falls
    back exactly when no registered taal is within two matras of the
    estimated cycle length: then the result is the fallback result;
    otherwise the reported taal is registered with matras within two of
    the estimate, every input beat is annotated, and a taal of exactly
    the estimated length comes without alternatives. *)
Theorem fallback_exactly_when_no_taal_within_two
        (beats_in : list float) (downbeats : list (float * Z))
        (strengths : list float) :
  exists cycle_length res,
    estimate_cycle_length downbeats = Ok cycle_length
    /\ detect_taal beats_in downbeats strengths = Ok res
    /\ ((forall t, In t registry_values ->
                   (2 < Z.abs (matras t - cycle_length))%Z) ->
        _build_fallback_result beats_in cycle_length = Ok res)
    /\ ((exists t, In t registry_values
                   /\ (Z.abs (matras t - cycle_length) <= 2)%Z) ->
        exists u,
          registry_getitem (taal res) = Ok u
          /\ In u registry_values
          /\ (Z.abs (matras u - cycle_length) <= 2)%Z
          /\ length (beats res) = length beats_in
          /\ (matras u = cycle_length -> alternative_taals res = [])).
Proof.
  destruct (detect_paths beats_in downbeats strengths)
    as (cl & r0 & res & Hcl & Hr0 & Hres & Hpath).
  exists cl, res. split; [exact Hcl|]. split; [exact Hres|].
  assert (Hin_reg : forall u, registry_getitem (taal res) = Ok u ->
                              In u registry_values).
  { intros u Hu. destruct (registry_getitem_total (taal res)) as (u' & Hu' & Hreg & _).
    congruence. }
  destruct Hpath as [(u & Hin & Er0 & Hu & Hb)
                    |(-> & r1 & Hr1 & [(-> & Hfb)|(u & Er1 & Hu & Hb)])].
  - (* exact length *)
    destruct (matcher_entries _ _ _ Hr0) as (_ & _ & Hent).
    destruct (Hent _ _ Hin) as (_ & u' & Hreg' & Hname' & Hm').
    assert (u' = u).
    { apply registry_getitem_name in Hreg'. rewrite Hname' in Hreg'. congruence. }
    subst u'. split.
    + intros Hfar. specialize (Hfar u Hreg'). lia.
    + intros _. exists u. split; [exact Hu|]. split; [exact Hreg'|].
      split; [lia|]. split; [rewrite Hb; apply spec_beat_infos_length|].
      intros _. pose proof (matcher_at_most_one _ _ _ Hr0) as Hlen.
      rewrite Er0 in Hlen. simpl in Hlen.
      destruct (alternative_taals res); [reflexivity|simpl in Hlen; lia].
  - (* nothing nearby *)
    split; [intros _; exact Hfb|].
    intros (t & Hreg & Hnear). exfalso.
    pose proof (matcher_empty_no_candidates _ _ Hr0 t Hreg) as Hne.
    apply (retry_empty_no_neighbours _ _ Hr1 t Hreg). simpl. lia.
  - (* a neighbouring length *)
    destruct (retry_entries strengths cl) as (r1' & Hr1' & _ & _ & Hent).
    assert (r1' = r1) by congruence. subst r1'.
    destruct (Hent (taal res) (confidence res)) as (u' & _ & _ & Hu' & _ & Hoff & _).
    { rewrite Er1. now left. }
    assert (u' = u) by congruence. subst u'.
    assert (Hclose : (Z.abs (matras u - cl) <= 2)%Z /\ matras u <> cl).
    { simpl in Hoff. lia. }
    split.
    + intros Hfar. specialize (Hfar u (Hin_reg u Hu)). lia.
    + intros _. exists u. split; [exact Hu|]. split; [exact (Hin_reg u Hu)|].
      split; [tauto|]. split; [rewrite Hb; apply spec_beat_infos_length|].
      intros Heq. now destruct Hclose.
Qed.

Lemma fallback_far_witness :
  exists res,
    detect_taal [0; 0.5; 1] (fixture_downbeats 2 25) [0.9; 0.2; 0.4] = Ok res
    /\ _build_fallback_result [0; 0.5; 1] 25 = Ok res.
Proof.
  destruct (fallback_exactly_when_no_taal_within_two
              [0; 0.5; 1] (fixture_downbeats 2 25) [0.9; 0.2; 0.4])
    as (cl & res & Hcl & Hres & Hfar & _).
  assert (E : cl = 25%Z) by (vm_compute in Hcl; congruence).
  subst cl. exists res. split; [exact Hres|]. apply Hfar.
  intros t Ht. simpl in Ht.
  repeat (destruct Ht as [<-|Ht]; [simpl; lia|]). destruct Ht.
Defined.

Lemma nonneg_conf_penalty (c0 : float) :
  in_unit_interval c0 -> (0 <=? c0 * 0.8) = true.
Proof.
  intros [H0 H1]. revert H0 H1.
  rewrite !leb_spec, mul_spec. unfold SFleb at 1 2.
  change (Prim2SF 0) with (S754_zero false).
  change (Prim2SF 1) with (S754_finite false 4503599627370496 (-52)).
  assert (H8 : exists m e, Prim2SF 0.8 = S754_finite false m e)
    by (vm_compute; eauto).
  destruct H8 as (m & e & ->). intros H0 H1.
  apply SFmul_unit_by_positive; assumption.
Qed.

(** X16. No detection result reports a negative confidence or NaN: the
    confidence of the best taal and of every alternative is [>= 0]. *)
Theorem confidences_are_never_negative
        (beats_in : list float) (downbeats : list (float * Z))
        (strengths : list float) :
  exists res,
    detect_taal beats_in downbeats strengths = Ok res
    /\ (0 <=? confidence res) = true
    /\ Forall (fun r => (0 <=? snd r) = true) (alternative_taals res).
Proof.
  destruct (detect_paths beats_in downbeats strengths)
    as (cl & r0 & res & Hcl & Hr0 & Hres & Hpath).
  exists res. split; [exact Hres|].
  assert (Hlist : forall l, l = (taal res, confidence res) :: alternative_taals res ->
            (forall t c, In (t, c) l -> (0 <=? c) = true) ->
            (0 <=? confidence res) = true
            /\ Forall (fun r => (0 <=? snd r) = true) (alternative_taals res)).
  { intros l -> Hall. split.
    - apply (Hall (taal res)). now left.
    - apply Forall_forall. intros [t c] Hin. apply (Hall t). now right. }
  destruct Hpath as [(u & Hin & Er0 & Hu & Hb)
                    |(-> & r1 & Hr1 & [(-> & Hfb)|(u & Er1 & Hu & Hb)])].
  - apply (Hlist r0 Er0). intros t c Hc.
    destruct (matcher_entries _ _ _ Hr0) as (_ & _ & Hent).
    exact (proj1 (proj1 (Hent t c Hc))).
  - destruct (fallback_spec beats_in cl)
      as (res' & u & l1 & l2 & Hres' & _ & _ & _ & _ & Hconf & _ & Halt).
    assert (res' = res) by congruence. subst res'.
    rewrite Hconf, Halt. split; [reflexivity|constructor].
  - destruct (retry_entries strengths cl) as (r1' & Hr1' & _ & _ & Hent).
    assert (r1' = r1) by congruence. subst r1'.
    apply (Hlist r1 Er1). intros t c Hc.
    destruct (Hent t c Hc) as (u' & rankings & c0 & _ & _ & _ & Hrank & Hin0 & ->).
    destruct (matcher_entries _ _ _ Hrank) as (_ & _ & Hent0).
    apply nonneg_conf_penalty. exact (proj1 (Hent0 t c0 Hin0)).
Qed.

End PipelinePaths.

(** ** Laya classes *)

Section Laya.
Local Open Scope float_scope.

Lemma SFcompare_le_lt_trans (a b c : spec_float) :
  SFleb a b = true -> SFltb b c = true -> SFltb a c = true.
Proof.
  unfold SFleb, SFltb, SFcompare.
  destruct a as [sa|sa| |sa ma ea], b as [sb|sb| |sb mb eb],
           c as [sc|sc| |sc mc ec];
    try destruct sa; try destruct sb; try destruct sc;
    try congruence; try reflexivity.
  all: change (PosDef.Pos.compare_cont Eq) with Pos.compare.
  all: destruct (Z.compare_spec ea eb), (Z.compare_spec eb ec),
         (Z.compare_spec ea ec); try lia; try congruence.
  all: subst.
  all: destruct (Pos.compare_spec ma mb), (Pos.compare_spec mb mc),
         (Pos.compare_spec ma mc); simpl; try lia; try congruence.
Qed.

Lemma leb_ltb_trans (x y z : float) :
  (x <=? y) = true -> (y <? z) = true -> (x <? z) = true.
Proof.
  rewrite leb_spec, !ltb_spec. apply SFcompare_le_lt_trans.
Qed.

Lemma nan_not_below (x y : float) : is_nan x = true -> (x <? y) = false.
Proof.
  intros Hnan. rewrite ltb_spec. unfold SFltb.
  destruct (Prim2SF x) eqn:E; try reflexivity;
    assert (Hn : not_nan x) by (apply not_nan_spec; rewrite E; discriminate);
    unfold not_nan in Hn; congruence.
Qed.

Lemma classify_laya_cases (bpm : float) (taal_name : TaalName) :
  _classify_laya bpm taal_name
  = if bpm <? 60 then "vilambit"%string
    else if bpm <? 160 then "madhya"%string else "drut"%string.
Proof.
  destruct taal_name; reflexivity.
Qed.

(** X17. The two laya classifiers agree: the label shown for a tempo is
    the label of the class [_classify_laya] gives it, whatever taal is
    passed; the taal does not change the class (every taal name is
    registered, so the default is never taken), and a NaN tempo is
    classified as drut. *)
Theorem laya_classifiers_agree (bpm : float) (taal_name : TaalName) :
  _classify_laya_label bpm = laya_label (_classify_laya bpm taal_name)
  /\ (forall other, _classify_laya bpm other = _classify_laya bpm taal_name)
  /\ (is_nan bpm = true -> _classify_laya bpm taal_name = "drut"%string
                          /\ _classify_laya_label bpm = "Drut Laya"%string).
Proof.
  split; [|split].
  - rewrite classify_laya_cases. unfold _classify_laya_label.
    destruct (bpm <? 60); [reflexivity|]. destruct (bpm <? 160); reflexivity.
  - intros other. now rewrite !classify_laya_cases.
  - intros Hnan. rewrite classify_laya_cases. unfold _classify_laya_label.
    now rewrite !(nan_not_below bpm _ Hnan).
Qed.

Lemma laya_nan_witness :
  _classify_laya nan TEENTAAL = "drut"%string
  /\ _classify_laya_label nan = "Drut Laya"%string.
Proof.
  apply (laya_classifiers_agree nan TEENTAAL). reflexivity.
Defined.

(** X18. The laya class is monotone in the tempo: a tempo that is not
    slower never gets a slower class (vilambit below madhya below drut),
    whatever taals are passed. *)
Theorem laya_is_monotone_in_tempo (bpm1 bpm2 : float) (n1 n2 : TaalName) :
  (bpm1 <=? bpm2) = true ->
  (laya_rank (_classify_laya bpm1 n1)
   <= laya_rank (_classify_laya bpm2 n2))%Z.
Proof.
  intros Hle. rewrite !classify_laya_cases.
  destruct (bpm2 <? 60) eqn:E60.
  - rewrite (leb_ltb_trans _ _ _ Hle E60). reflexivity.
  - destruct (bpm2 <? 160) eqn:E160.
    + rewrite (leb_ltb_trans _ _ _ Hle E160).
      destruct (bpm1 <? 60); vm_compute; discriminate.
    + destruct (bpm1 <? 60); [vm_compute; discriminate|].
      destruct (bpm1 <? 160); vm_compute; discriminate.
Qed.

Lemma laya_monotone_witness :
  (laya_rank (_classify_laya 59.5 DADRA)
   <= laya_rank (_classify_laya 160 TEENTAAL))%Z.
Proof.
  apply (laya_is_monotone_in_tempo 59.5 160 DADRA TEENTAAL). reflexivity.
Defined.

End Laya.
